(** * dpsctl: the OpenDPS command/response client

    A shallow embedding of [dpsctl/dpsctl.py]: the serial framing reader,
    the response handler, the command/response exchange, the firmware
    upgrade session and the discovery listener, followed by the properties
    of the protocol engine stated over these definitions.

    Bytes are integers in [0, 256) carried as [Z]; Python dictionaries with
    string keys are [gmap string _]; printing is recorded as a list of
    events; [sys.exit] and uncaught exceptions end a computation. *)

From Stdlib Require Import ZArith String Ascii List Bool Lia.
From stdpp Require Import base option list gmap strings pretty.

Open Scope string_scope.
Open Scope Z_scope.
Open Scope list_scope.

(** ** Python values and program output *)

Abbreviation bytearray := (list Z).

Inductive pyval :=
| VInt (z : Z)
| VStr (s : string)
| VBytes (b : bytearray)
| VStrs (l : list string)                          (* a list of strings *)
| VRecords (l : list (list (string * string))).    (* a list of string dicts *)

Abbreviation ret_dict := (gmap string pyval).

(** A printed line: a literal, a [%]-format with its arguments (the
    rendering of the format is not modelled), or [json.dumps] of a dict. *)
Inductive text :=
| Lit (s : string)
| Format (fmt : string) (args : list pyval)
| JsonDumps (d : gmap string pyval)
| QueryReport (d : gmap string pyval)
| Progress (counter total : Z).
    (* "\rDownload progress: %d%% " % (counter*1.0/total*100.0) *)

Inductive event :=
| PrintLine (t : text)                 (* print(...) *)
| PrintError (message : text)      (* print("Error: %s." % (message)) *)
| StdoutWrite (t : text)           (* sys.stdout.write(...) *)
| EvOpen (if_name : string)        (* transport opened *)
| EvWrite (if_name : string) (data : bytearray)
| EvRead (if_name : string) (data : bytearray)
| EvClose (if_name : string).

Inductive exn :=
| IndexError
| KeyError (key : string)
| TypeError
| AttributeError
| OverflowError
| SerialException.

Inductive outcome (A : Type) :=
| Ret (a : A)
| Exit (code : Z)                  (* sys.exit(code) *)
| Raise (e : exn).                 (* uncaught exception *)
Arguments Ret {A} a.
Arguments Exit {A} code.
Arguments Raise {A} e.

(** ** The computation monad: state, output events, exit and exceptions *)

Definition M (S A : Type) : Type := S -> outcome A * S * list event.

Definition ret {S A} (a : A) : M S A := fun s => (Ret a, s, []).

Definition bind {S A B} (m : M S A) (k : A -> M S B) : M S B :=
  fun s =>
    match m s with
    | (Ret a, s1, evs) =>
        match k a s1 with
        | (r, s2, evs') => (r, s2, evs ++ evs')
        end
    | (Exit c, s1, evs) => (Exit c, s1, evs)
    | (Raise e, s1, evs) => (Raise e, s1, evs)
    end.

Notation "'let!' x ':=' m 'in' k" := (bind m (fun x => k))
  (at level 10, x binder, m at level 100, k at level 200).
Notation "m '>>' k" := (bind m (fun _ => k))
  (at level 100, k at level 200, right associativity).

Definition emit {S} (e : event) : M S unit := fun s => (Ret tt, s, [e]).
Definition print {S} (t : text) : M S unit := emit (PrintLine t).
Definition raise {S A} (e : exn) : M S A := fun s => (Raise e, s, []).
Definition sys_exit {S A} (code : Z) : M S A := fun s => (Exit code, s, []).
Definition get {S} : M S S := fun s => (Ret s, s, []).
Definition put {S} (s : S) : M S unit := fun _ => (Ret tt, s, []).
Definition skip {S} : M S unit := ret tt.

(** [fail]: print the error message and exit with status 1. *)
Definition fail {S A} (message : text) : M S A :=
  emit (PrintError message) >> sys_exit 1.

(** Run a computation over its own state [S1] inside one over [S2]; the
    inner state is dropped when it ends (a local object). *)
Definition with_local {S1 S2 A} (init : S1) (m : M S1 A) : M S2 A :=
  fun s => match m init with (r, _, evs) => (r, s, evs) end.

Definition result {S A} (x : outcome A * S * list event) : outcome A := x.1.1.
Definition final {S A} (x : outcome A * S * list event) : S := x.1.2.
Definition events {S A} (x : outcome A * S * list event) : list event := x.2.

(** Python helpers. *)
Definition truthy (z : Z) : bool := negb (z =? 0).
Definition neq (a b : Z) : bool := negb (a =? b).

(** [seq[i]] on a byte sequence: [IndexError] out of range. *)
Definition getitem {S} (l : bytearray) (i : nat) : M S Z :=
  match l !! i with
  | Some b => ret b
  | None => raise IndexError
  end.

(** [d[key]] on a dictionary: [KeyError] when absent. *)
Definition dict_get {S} (d : gmap string pyval) (key : string) : M S pyval :=
  match d !! key with
  | Some v => ret v
  | None => raise (KeyError key)
  end.

(** [v == n] for an integer [n]. *)
Definition py_eq_int (v : pyval) (n : Z) : bool :=
  match v with
  | VInt z => z =? n
  | _ => false
  end.

(** ** The imported modules

    dpsctl.py imports [protocol] (command identifiers, frame builders and
    two decoders), [uframe] (frame markers and the frame decoder),
    [PyCRC] and [uhej]. Their sources are not part of dpsctl.py: the
    names it uses are the fields of these classes. *)

Class Protocol := {
  cmd_ping : Z;
  cmd_query : Z;
  cmd_cal_report : Z;
  cmd_set_function : Z;
  cmd_list_functions : Z;
  cmd_set_parameters : Z;
  cmd_list_parameters : Z;
  cmd_enable_output : Z;
  cmd_lock : Z;
  cmd_upgrade_start : Z;
  cmd_upgrade_data : Z;
  cmd_temperature_report : Z;
  cmd_set_calibration : Z;
  cmd_init : Z;
  cmd_response : Z;
  upgrade_continue : Z;
  upgrade_crc_error : Z;
  upgrade_erase_error : Z;
  upgrade_flash_error : Z;
  upgrade_overflow_error : Z;
  upgrade_success : Z;
  (* frame builders: the bytes of the frame to send *)
  create_upgrade_start : Z -> Z -> bytearray;
  create_upgrade_data : bytearray -> bytearray;
  (* decoders of a received payload: a dictionary, or an exception *)
  unpack_cal_report : bytearray -> exn + gmap string pyval;
  unpack_query_response : bytearray -> exn + gmap string pyval
}.

Class Uframe := {
  SOF : Z;                          (* uframe._SOF *)
  EOF : Z;                          (* uframe._EOF *)
  (* uFrame.set_frame: the result code (negative on error) and the
     decoded payload that get_frame() then returns *)
  set_frame : bytearray -> Z * bytearray
}.

Class Crc := {
  calculate : bytearray -> Z            (* CRCCCITT().calculate *)
}.

Record Args := {
  json : bool;
  verbose : bool;
  force : bool;
  parameter : option (list string)  (* None when -p is not given *)
}.

(** ** The frame cursor *)

(** A received frame: its payload and the position of the next read. *)
Record uFrame := {
  get_frame : bytearray;
  unpack_pos : nat
}.

Definition new_frame (payload : bytearray) : uFrame :=
  {| get_frame := payload; unpack_pos := 0 |}.

Definition advance (n : nat) (f : uFrame) : uFrame :=
  {| get_frame := get_frame f; unpack_pos := (unpack_pos f + n)%nat |}.

(** Modelled from the spec: the cursor operations of uframe.py, which is
    not among the sources. Fields are read strictly in order, the position
    advances with each read, and no read goes past the end of the payload
    (a fixed-width read there raises). *)
Definition unpack8 : M uFrame Z :=
  fun f =>
    match get_frame f !! unpack_pos f with
    | Some b => (Ret b, advance 1 f, [])
    | None => (Raise IndexError, f, [])
    end.

(** Modelled from the spec: the signed 8-bit read of uframe.py. *)
Definition unpacks8 : M uFrame Z :=
  let! b := unpack8 in
  ret (if b <? 128 then b else b - 256).

(** Modelled from the spec: the 16-bit read of uframe.py, high byte
    first. *)
Definition unpack16 : M uFrame Z :=
  let! hi := unpack8 in
  let! lo := unpack8 in
  ret (Z.lor (Z.shiftl hi 8) lo).

(** The text up to the terminator (or the end) and the bytes consumed. *)
Fixpoint cstr (l : bytearray) : string * nat :=
  match l with
  | [] => (EmptyString, 0%nat)
  | b :: r =>
      if b =? 0 then (EmptyString, 1%nat)
      else let (s, n) := cstr r in
           (String (ascii_of_nat (Z.to_nat b)) s, S n)
  end.

(** Modelled from the spec: the terminated-text read of uframe.py (read
    until the terminator). *)
Definition unpack_cstr : M uFrame string :=
  fun f =>
    let (s, n) := cstr (drop (unpack_pos f) (get_frame f)) in
    (Ret s, advance n f, []).

(** Modelled from the spec: [eof()] of uframe.py, true once the end of the
    payload is reached. *)
Definition eof : M uFrame bool :=
  fun f => (Ret (length (get_frame f) <=? unpack_pos f)%nat, f, []).

(** ** Names of units and prefixes *)

Definition unit_name (unit : Z) : string :=
  if unit =? 0 then "A"
  else if unit =? 1 then "V"
  else if unit =? 2 then "W"
  else if unit =? 3 then "s"
  else if unit =? 4 then "Hz"
  else "unknown".

Definition prefix_name (prefix : Z) : string :=
  if prefix =? -6 then "u"
  else if prefix =? -3 then "m"
  else if prefix =? -2 then "c"
  else if prefix =? -1 then "d"
  else if prefix =? 0 then ""
  else if prefix =? 1 then "D"
  else if prefix =? 2 then "hg"
  else if prefix =? 3 then "k"
  else if prefix =? 4 then "M"
  else "e" +:+ pretty prefix.

(** ** handle_response *)

Definition py_truthy (v : pyval) : bool :=
  match v with
  | VInt z => truthy z
  | VStr s => negb (String.eqb s "")
  | VBytes b => negb (length b =? 0)%nat
  | VStrs l => negb (length l =? 0)%nat
  | VRecords l => negb (length l =? 0)%nat
  end.

(** [parts[0]] of [p.split("=")]: the text before the first ["="]. *)
Fixpoint before_eq (p : string) : string :=
  match p with
  | EmptyString => EmptyString
  | String c r => if Ascii.eqb c "="%char then EmptyString else String c (before_eq r)
  end.

Definition parameter_status (status : Z) : string :=
  if status =? 0 then "ok"
  else if status =? 1 then "unknown parameter"
  else if status =? 2 then "out of range"
  else if status =? 3 then "unsupported parameter"
  else "unknown error " +:+ pretty status.

Definition warn_mismatch (command resp_command : Z) : text :=
  Format "Warning: sent command %02x, response was %02x."
         [VInt command; VInt resp_command].

Definition command_failed : text := Lit "command failed according to device".

Section engine.
Context `{Protocol}.

(** The condition of the fatal error of [handle_response]:
    [resp_command != cmd_upgrade_start and resp_command != cmd_upgrade_data
     and not success]. *)
Definition device_failed (resp_command success : Z) : bool :=
  neq resp_command cmd_upgrade_start
  && neq resp_command cmd_upgrade_data
  && negb (truthy success).

(** Apply one of [protocol]'s decoders to the frame. *)
Definition call_unpack (unpack : bytearray -> exn + gmap string pyval)
  : M uFrame (gmap string pyval) :=
  fun f =>
    match unpack (get_frame f) with
    | inl e => (Raise e, f, [])
    | inr d => (Ret d, f, [])
    end.

(** The head of [handle_response]: read the command byte of the response;
    when it carries the response flag, clear the flag, read the success
    byte, warn on a command mismatch and fail on a failed command other
    than the two upgrade commands. Yields [resp_command]. *)
Definition check_response (command : Z) : M uFrame Z :=
  let! frame := get in
  let! resp_command := getitem (get_frame frame) 0 in
  if truthy (Z.land resp_command cmd_response) then
    let resp_command := Z.lxor resp_command cmd_response in
    let! success := getitem (get_frame frame) 1 in
    (if neq resp_command command
     then print (warn_mismatch command resp_command) else skip) >>
    (if device_failed resp_command success
     then fail command_failed else skip) >>
    ret resp_command
  else ret resp_command.

(** [while name != "": functions.append(name); name = frame.unpack_cstr()] *)
Fixpoint unpack_functions (fuel : nat) (name : string) (functions : list string)
  : M uFrame (list string) :=
  match fuel with
  | O => ret functions
  | S n =>
      if String.eqb name "" then ret functions
      else let! name' := unpack_cstr in
           unpack_functions n name' (functions ++ [name])
  end.

(** [while not frame.eof(): ...] of the list-parameters response. *)
Fixpoint unpack_parameters (fuel : nat) (parameters : list (list (string * string)))
  : M uFrame (list (list (string * string))) :=
  match fuel with
  | O => ret parameters
  | S n =>
      let! e := eof in
      if e then ret parameters
      else let! name := unpack_cstr in
           let! unit := unpack8 in
           let! prefix := unpacks8 in
           unpack_parameters n
             (parameters ++ [[("name", name); ("unit", unit_name unit);
                              ("prefix", prefix_name prefix)]])
  end.

(** [for p in args.parameter: ...] of the set-parameters response. *)
Fixpoint report_parameters (ps : list string) (quiet : bool) : M uFrame unit :=
  match ps with
  | [] => skip
  | p :: ps' =>
      let! status := unpack8 in
      (if negb quiet
       then print (Format "%s: %s" [VStr (before_eq p); VStr (parameter_status status)])
       else skip) >>
      report_parameters ps' quiet
  end.

(** The [if]/[elif] chain of [handle_response] on [resp_command]: the
    decoder of the response. Yields [ret_dict] and [_json]. *)
Definition decode_response (resp_command : Z) (args : Args) (quiet : bool)
  (_json : gmap string pyval)
  : M uFrame (gmap string pyval * gmap string pyval) :=
  let ret_dict : gmap string pyval := ∅ in
  if resp_command =? cmd_ping then
    print (Lit "Got pong from device") >> ret (ret_dict, _json)
  else if resp_command =? cmd_cal_report then
    let! ret_dict := call_unpack unpack_cal_report in
    ret (ret_dict, _json)
  else if resp_command =? cmd_query then
    let! ret_dict := call_unpack unpack_query_response in
    let! output_enabled := dict_get ret_dict "output_enabled" in
    let! enable_str :=
      if py_truthy output_enabled then ret "on"
      else let! temp_shutdown := dict_get ret_dict "temp_shutdown" in
           ret (if py_eq_int temp_shutdown 1 then "temperature shutdown"
                else "off") in
    (* v_in_str, v_out_str, i_out_str *)
    dict_get ret_dict "v_in" >>
    dict_get ret_dict "v_out" >>
    dict_get ret_dict "i_out" >>
    if json args then ret (ret_dict, ret_dict)
    else
      (if negb quiet then
         let! cur_func := dict_get ret_dict "cur_func" in
         print (Format "%-10s : %s (%s)" [VStr "Func"; cur_func; VStr enable_str]) >>
         dict_get ret_dict "params" >>
         (* the lines of the parameters, of V_in, V_out and I_out, and of
            temp1 and temp2 where present, are one event *)
         print (QueryReport ret_dict)
       else skip) >>
      ret (ret_dict, _json)
  else if resp_command =? cmd_upgrade_start then
    let! cmd := unpack8 in
    let! status := unpack8 in
    let! chunk_size := unpack16 in
    ret (<["chunk_size" := VInt chunk_size]> (<["status" := VInt status]> ret_dict),
         _json)
  else if resp_command =? cmd_upgrade_data then
    let! cmd := unpack8 in
    let! status := unpack8 in
    ret (<["status" := VInt status]> ret_dict, _json)
  else if resp_command =? cmd_set_function then
    let! cmd := unpack8 in
    let! status := unpack8 in
    (if negb quiet then
       if negb (truthy status) then print (Lit "Function does not exist.")
       else print (Lit "Changed function.")
     else skip) >>
    ret (ret_dict, _json)
  else if resp_command =? cmd_list_functions then
    let! cmd := unpack8 in
    let! status := unpack8 in
    if status =? 0 then
      print (Lit "Error, failed to list available functions") >>
      ret (ret_dict, _json)
    else
      let! frame := get in
      let! name := unpack_cstr in
      let! functions := unpack_functions (S (length (get_frame frame))) name [] in
      if json args then ret (ret_dict, <["functions" := VStrs functions]> _json)
      else
        (match functions with
         | [] => print (Lit "Selected OpenDPS supports no functions at all, which is quite weird when you think about it...")
         | [f] => print (Format "Selected OpenDPS supports the %s function." [VStr f])
         | _ => print (Format "Selected OpenDPS supports the %s functions." [VStrs functions])
         end) >>
        ret (ret_dict, _json)
  else if resp_command =? cmd_set_parameters then
    let! cmd := unpack8 in
    let! status := unpack8 in
    match parameter args with
    | None => raise TypeError            (* iterating over None *)
    | Some ps => report_parameters ps quiet >> ret (ret_dict, _json)
    end
  else if resp_command =? cmd_list_parameters then
    let! cmd := unpack8 in
    let! status := unpack8 in
    if status =? 0 then
      print (Lit "Error, failed to list available parameters") >>
      ret (ret_dict, _json)
    else
      let! cur_func := unpack_cstr in
      let! frame := get in
      let! parameters := unpack_parameters (S (length (get_frame frame))) [] in
      if json args then
        ret (ret_dict,
             <["parameters" := VRecords parameters]>
               (<["current_function" := VStr cur_func]> _json))
      else
        (match parameters with
         | [] => print (Format "Selected OpenDPS supports no parameters at all for the %s function" [VStr cur_func])
         | [p] => print (Format "Selected OpenDPS supports the %s parameter (%s%s) for the %s function." [VRecords [p]; VStr cur_func])
         | _ => print (Format "Selected OpenDPS supports the %sparameters for the %s function." [VRecords parameters; VStr cur_func])
         end) >>
        ret (ret_dict, _json)
  else if resp_command =? cmd_enable_output then
    let! cmd := unpack8 in
    let! status := unpack8 in
    (if status =? 0 then print (Lit "Error, failed to enable/disable output.")
     else skip) >>
    ret (ret_dict, _json)
  else if resp_command =? cmd_temperature_report then ret (ret_dict, _json)
  else if resp_command =? cmd_lock then ret (ret_dict, _json)
  else if resp_command =? cmd_set_calibration then ret (ret_dict, _json)
  else if resp_command =? cmd_init then ret (ret_dict, _json)
  else
    print (Format "Unknown response %d from device." [VInt resp_command]) >>
    ret (ret_dict, _json).

(** The rest of [handle_response] once [resp_command] is known: set up
    [_json], decode, dump [_json] when asked, return [ret_dict]. *)
Definition dispatch_response (resp_command : Z) (args : Args) (quiet : bool)
  : M uFrame (gmap string pyval) :=
  let _json : gmap string pyval :=
    if json args then <["status" := VInt 1]> (<["cmd" := VInt resp_command]> ∅)
    else ∅ in
  let! '(ret_dict, _json) := decode_response resp_command args quiet _json in
  (if json args then print (JsonDumps _json) else skip) >>
  ret ret_dict.

(** Handle a response frame from the device; the frame cursor is the
    state. Returns the dictionary of decoded fields. *)
Definition handle_response (command : Z) (args : Args) (quiet : bool)
  : M uFrame (gmap string pyval) :=
  let! resp_command := check_response command in
  dispatch_response resp_command args quiet.

End engine.

(** ** Communication interfaces *)

(** What the operating system delivers to the process: whether the serial
    device and the socket can be used, the result of each one-byte read of
    the serial port ([None]: the read timed out; an exhausted list times
    out), and the result of each [recvfrom] ([None]: timeout or socket
    error). *)
Record world := {
  serial_ok : bool;
  socket_ok : bool;
  sendto_ok : bool;
  serial_rx : list (option Z);
  udp_rx : list (option bytearray)
}.

Definition set_serial_rx (rx : list (option Z)) (w : world) : world :=
  {| serial_ok := serial_ok w; socket_ok := socket_ok w; sendto_ok := sendto_ok w;
     serial_rx := rx; udp_rx := udp_rx w |}.

Definition set_udp_rx (rx : list (option bytearray)) (w : world) : world :=
  {| serial_ok := serial_ok w; socket_ok := socket_ok w; sendto_ok := sendto_ok w;
     serial_rx := serial_rx w; udp_rx := rx |}.

(** The three classes: the abstract [comm_interface] and its serial and
    UDP variants. *)
Inductive interface_class :=
| base_interface
| tty_interface
| udp_interface.

Record comm_interface := {
  class : interface_class;
  _if_name : string
}.

Definition name (c : comm_interface) : string := _if_name c.

Section transport.
Context `{Uframe}.

(** The loop of [tty_interface.read] over the pending one-byte reads:
    [bytes] and [sof] are its two variables. Returns the bytes read and
    the reads left. *)
Fixpoint tty_read_loop (port : list (option Z)) (bytes : bytearray) (sof : bool)
  : bytearray * list (option Z) :=
  match port with
  | [] => (bytes, [])                                  (* timeout *)
  | None :: rest => (bytes, rest)                      (* timeout *)
  | Some b :: rest =>
      let bytes := if b =? SOF then [] else bytes in
      let sof := if b =? SOF then true else sof in
      let bytes := if sof then bytes ++ [b] else bytes in
      if b =? EOF then (bytes, rest)
      else tty_read_loop rest bytes sof
  end.

Definition tty_read (port : list (option Z)) : bytearray * list (option Z) :=
  tty_read_loop port [] false.

(** [udp_interface.read]: one datagram of at most 1000 bytes, or empty. *)
Definition udp_read (rx : list (option bytearray)) : bytearray * list (option bytearray) :=
  match rx with
  | [] => ([], [])
  | None :: rest => ([], rest)
  | Some d :: rest => (take 1000 d, rest)
  end.

Definition comm_open (c : comm_interface) : M world bool :=
  match class c with
  | base_interface => ret false
  | tty_interface =>
      let! w := get in
      if serial_ok w then emit (EvOpen (name c)) >> ret true
      else raise SerialException
  | udp_interface =>
      let! w := get in
      if socket_ok w then emit (EvOpen (name c)) >> ret true
      else ret false
  end.

(** [close]. The serial one calls [close] on [self._port_handle.port],
    which is the name of the port, a text: the call raises
    [AttributeError] and the port stays open. *)
Definition comm_close (c : comm_interface) : M world bool :=
  match class c with
  | base_interface => ret false
  | tty_interface => raise AttributeError
  | udp_interface => emit (EvClose (name c)) >> ret true
  end.

Definition comm_write (c : comm_interface) (data : bytearray) : M world bool :=
  match class c with
  | base_interface => ret false
  | tty_interface => emit (EvWrite (name c) data) >> ret true
  | udp_interface =>
      let! w := get in
      if sendto_ok w then emit (EvWrite (name c) data) >> ret true
      else
        (* the handler formats ["%s (%d)" % (str(msg[0]), msg[1])] for
           [fail]; [msg[1]] is the text of the error, which [%d] refuses:
           the formatting raises before [fail] is called *)
        raise TypeError
  end.

Definition comm_read (c : comm_interface) : M world bytearray :=
  match class c with
  | base_interface => ret []
  | tty_interface =>
      let! w := get in
      let (data, rest) := tty_read (serial_rx w) in
      put (set_serial_rx rest w) >> emit (EvRead (name c) data) >> ret data
  | udp_interface =>
      let! w := get in
      let (data, rest) := udp_read (udp_rx w) in
      put (set_udp_rx rest w) >> emit (EvRead (name c) data) >> ret data
  end.

End transport.

(** ** communicate *)

(** The truth value of a bound method object such as [comms.close]:
    always true, whatever the method would return when called. *)
Definition method_truth {A} (method : A) : bool := true.

Section exchange.
Context `{Protocol} `{Uframe}.

Definition communicate (comms : option comm_interface) (frame : bytearray)
  (args : Args) (quiet : bool) : M world (gmap string pyval) :=
  let bytes := frame in
  match comms with
  | None => fail (Lit "no communication interface specified")
  | Some comms =>
      let! opened := comm_open comms in
      (if negb opened then fail (Format "could not open %s" [VStr (name comms)])
       else skip) >>
      (if verbose args then
         print (Format "Communicating with %s" [VStr (name comms)]) >>
         print (Format "TX %2d bytes [%s]" [VInt (Z.of_nat (length bytes)); VBytes bytes])
       else skip) >>
      let! written := comm_write comms bytes in
      (if negb written then fail (Format "write failed on %s" [VStr (name comms)])
       else skip) >>
      let! resp := comm_read comms in
      (if (length resp =? 0)%nat then
         fail (Format "timeout talking to device %s" [VStr (_if_name comms)])
       else if verbose args then
         print (Format "RX %2d bytes [%s]\n" [VInt (Z.of_nat (length resp)); VBytes resp])
       else skip) >>
      (* if not comms.close: the method is named, not called *)
      (if negb (method_truth (comm_close comms)) then
         print (Format "Warning: could not close %s" [VStr (name comms)])
       else skip) >>
      let (res, payload) := set_frame resp in
      if res <? 0 then fail (Format "protocol error (%d)" [VInt res])
      else
        let! command := getitem frame 1 in
        with_local (new_frame payload) (handle_response command args quiet)
  end.

End exchange.

(** ** Firmware upgrade *)

(** The sizes that [f.read] takes: those that fit a C long, of 64 bits at
    most. *)
Definition read_size_ok (n : Z) : bool := (- 2 ^ 63 <=? n) && (n <? 2 ^ 63).

(** [f.read(n)] on the rest of a file: at most [n] bytes, everything when
    [n] is negative; [OverflowError] for a size that does not fit a C
    long. Returns the bytes read and the rest. The buffer of [n] bytes that
    the read allocates is taken to fit the memory of the machine. *)
Definition file_read (n : Z) (rest : bytearray) : exn + bytearray * bytearray :=
  if negb (read_size_ok n) then inl OverflowError
  else if n <? 0 then inr (rest, [])
  else inr (take (Z.to_nat n) rest, drop (Z.to_nat n) rest).

(** The generator loop of [chunk_from_file]: read, yield while the chunk
    is not empty. A generator is what its consumer gets from it: the
    values yielded, and the exception that ends it if one does. *)
Fixpoint chunk_loop (fuel : nat) (chunk_size : Z) (rest : bytearray)
  : list bytearray * option exn :=
  match fuel with
  | O => ([], None)
  | S k =>
      match file_read chunk_size rest with
      | inl e => ([], Some e)
      | inr ([], _) => ([], None)
      | inr (chunk, rest') =>
          let (chunks, e) := chunk_loop k chunk_size rest' in
          (chunk :: chunks, e)
      end
  end.

(** The chunks yielded for a file holding [content]. Every yielded chunk
    holds a byte, so [length content] reads and the last, empty one
    suffice. *)
Definition chunk_from_file (content : bytearray) (chunk_size : Z)
  : list bytearray :=
  (chunk_loop (S (length content)) chunk_size content).1.

(** The exception that ends the generator, after the chunks. *)
Definition chunk_from_file_end (content : bytearray) (chunk_size : Z)
  : option exn :=
  (chunk_loop (S (length content)) chunk_size content).2.

(** The end of a [for] loop over a generator: the exception of the
    generator goes through the loop. *)
Definition generator_end {S} (e : option exn) : M S unit :=
  match e with
  | Some e => raise e
  | None => skip
  end.

Definition hex_digit (d : Z) : ascii :=
  nth (Z.to_nat d)
      ["0"; "1"; "2"; "3"; "4"; "5"; "6"; "7"; "8"; "9";
       "a"; "b"; "c"; "d"; "e"; "f"]%char "0"%char.

(** [content.encode('hex')]: two lower-case hexadecimal digits a byte. *)
Fixpoint encode_hex (content : bytearray) : string :=
  match content with
  | [] => EmptyString
  | b :: r => String (hex_digit (b / 16)) (String (hex_digit (b mod 16)) (encode_hex r))
  end.

(** [s[lo:hi]] for non-negative bounds. *)
Definition slice (lo hi : nat) (s : string) : string :=
  substring lo (hi - lo) s.

Definition EX_OK : Z := 0.

Section upgrade.
Context `{Protocol} `{Uframe} `{Crc}.

(** The body of the [for chunk in ...] loop of [run_upgrade]; yields the
    new [counter]. *)
Definition upgrade_chunk (comms : option comm_interface) (args : Args)
  (content : bytearray) (counter : Z) (chunk : bytearray) : M world Z :=
  let counter := counter + Z.of_nat (length chunk) in
  emit (StdoutWrite (Progress counter (Z.of_nat (length content)))) >>
  let! ret_dict := communicate comms (create_upgrade_data chunk) args false in
  let! status := dict_get ret_dict "status" in
  if py_eq_int status upgrade_continue then ret counter
  else if py_eq_int status upgrade_crc_error then
    print (Lit "") >> fail (Lit "device reported CRC error")
  else if py_eq_int status upgrade_erase_error then
    print (Lit "") >> fail (Lit "device reported erasing error")
  else if py_eq_int status upgrade_flash_error then
    print (Lit "") >> fail (Lit "device reported flashing error")
  else if py_eq_int status upgrade_overflow_error then
    print (Lit "") >> fail (Lit "device reported firmware overflow error")
  else if py_eq_int status upgrade_success then
    print (Lit "") >> ret counter
  else
    print (Lit "") >>
    fail (Format "device reported an unknown error (%d)" [status]).

Fixpoint upgrade_loop (comms : option comm_interface) (args : Args)
  (content : bytearray) (chunks : list bytearray) (counter : Z) : M world unit :=
  match chunks with
  | [] => skip
  | chunk :: rest =>
      let! counter := upgrade_chunk comms args content counter chunk in
      upgrade_loop comms args content rest counter
  end.

(** Run the firmware upgrade with the file [fw_file_name] holding
    [content]. *)
Definition run_upgrade (comms : option comm_interface) (content : bytearray)
  (args : Args) : M world unit :=
  (if negb (String.eqb (slice 6 8 (encode_hex content)) "20") && negb (force args)
   then fail (Lit "The firmware file does not seem valid, use --force to force upgrade")
   else skip) >>
  let crc := calculate content in
  let chunk_size := 1024 in
  let! ret_dict := communicate comms (create_upgrade_start chunk_size crc) args false in
  let! status := dict_get ret_dict "status" in
  (if py_eq_int status upgrade_continue then
     let! device_chunk_size := dict_get ret_dict "chunk_size" in
     (if negb (py_eq_int device_chunk_size chunk_size)
      then print (Format "Device selected chunk size %d" [device_chunk_size])
      else skip) >>
     upgrade_loop comms args content (chunk_from_file content chunk_size) 0 >>
     generator_end (chunk_from_file_end content chunk_size)
   else fail (Lit "Device rejected firmware upgrade")) >>
  sys_exit EX_OK.

End upgrade.

(** ** Discovery *)

(** A decoded uHej frame, as [uhej.decode_frame] returns it: the frame
    type and the announced services. *)
Record service := {
  port : Z;
  type : Z;
  service_name : string
}.

Record uhej_frame := {
  frame_type : Z;
  services : list service
}.

Class Uhej := {
  ANNOUNCE : Z;
  (* uhej.decode_frame; None: IllegalFrameException *)
  decode_frame : bytearray -> option uhej_frame
}.

(** The result of one [sock.recvfrom(1024)] of the listener. *)
Inductive received :=
| Datagram (data : bytearray) (addr : string) (src_port : Z)
| SocketError.

(** ["%s:%s:%s" % (f["source"], s["port"], s["type"])] *)
Definition discovery_key (source : string) (s : service) : string :=
  source +:+ ":" +:+ pretty (port s) +:+ ":" +:+ pretty (type s).

(** The body of [for s in f["services"]]; the state is the global
    [discovery_list]. *)
Definition record_service (source : string) (s : service)
  : M (gmap string bool) unit :=
  let key := discovery_key source s in
  let! discovery_list := get in
  match discovery_list !! key with
  | None =>
      if String.eqb (service_name s) "opendps" then
        put (<[key := true]> discovery_list) >>
        print (Format "%s" [VStr source])
      else skip
  | Some _ => skip
  end.

Fixpoint record_services (source : string) (ss : list service)
  : M (gmap string bool) unit :=
  match ss with
  | [] => skip
  | s :: ss' => record_service source s >> record_services source ss'
  end.

Section discovery.
Context `{Uhej}.

(** One turn of the [while 1] loop of [uhej_worker_thread]. *)
Definition uhej_worker_step (r : received) : M (gmap string bool) unit :=
  match r with
  | SocketError => print (Lit "Exception")
  | Datagram data addr src_port =>
      match decode_frame data with
      | None => skip
      | Some f =>
          if ANNOUNCE =? frame_type f then record_services addr (services f)
          else skip
      end
  end.

(** The listener over the datagrams received during the scan window. *)
Fixpoint uhej_worker_thread (rx : list received) : M (gmap string bool) unit :=
  match rx with
  | [] => skip
  | r :: rx' => uhej_worker_step r >> uhej_worker_thread rx'
  end.

End discovery.

(** Number of records the scan reports: [len(discovery_list)]. *)
Definition num_found (discovery_list : gmap string bool) : nat :=
  size discovery_list.

(** ** Concrete modules for evaluation

    Instances of the imported modules used to run the definitions on
    concrete inputs: distinct small command identifiers, the response flag
    on bit 7, and frames delimited by the two markers. *)

Definition sample_protocol : Protocol := {|
  cmd_ping := 1;
  cmd_query := 4;
  cmd_cal_report := 18;
  cmd_set_function := 11;
  cmd_list_functions := 13;
  cmd_set_parameters := 14;
  cmd_list_parameters := 15;
  cmd_enable_output := 12;
  cmd_lock := 7;
  cmd_upgrade_start := 9;
  cmd_upgrade_data := 10;
  cmd_temperature_report := 16;
  cmd_set_calibration := 19;
  cmd_init := 20;
  cmd_response := 128;
  upgrade_continue := 0;
  upgrade_crc_error := 2;
  upgrade_erase_error := 3;
  upgrade_flash_error := 4;
  upgrade_overflow_error := 5;
  upgrade_success := 16;
  create_upgrade_start := fun chunk_size crc =>
    [126; 9; chunk_size / 256 mod 256; chunk_size mod 256;
     crc / 256 mod 256; crc mod 256; 127];
  create_upgrade_data := fun chunk => 126 :: 10 :: chunk ++ [127];
  unpack_cal_report := fun _ => inr ∅;
  unpack_query_response := fun _ => inr ∅
|}.

(** A frame decoder that checks the two markers and strips them. *)
Definition sample_set_frame (raw : bytearray) : Z * bytearray :=
  match raw with
  | b :: rest =>
      if (b =? 126) && (match last rest with Some e => e =? 127 | None => false end)
      then (0, take (length rest - 1) rest)
      else (-1, [])
  | [] => (-1, [])
  end.

Definition sample_uframe : Uframe := {|
  SOF := 126;
  EOF := 127;
  set_frame := sample_set_frame
|}.

(** A 16-bit checksum standing for the CRC. *)
Definition sample_crc : Crc := {|
  calculate := fun content => fold_left (fun acc b => (acc * 31 + b) mod 65536) content 0
|}.

Definition sample_uhej : Uhej := {|
  ANNOUNCE := 0;
  decode_frame := fun data =>
    match data with
    | t :: p :: k :: n :: _ =>
        Some {| frame_type := t;
                services := [{| port := p; type := k;
                                service_name := if n =? 1 then "opendps" else "other" |}] |}
    | _ => None
    end
|}.

Definition sample_args : Args :=
  {| json := false; verbose := false; force := false; parameter := None |}.

Definition json_args : Args :=
  {| json := true; verbose := false; force := false; parameter := None |}.

Definition udp_device (rx : list (option bytearray)) : world :=
  {| serial_ok := true; socket_ok := true; sendto_ok := true;
     serial_rx := []; udp_rx := rx |}.

Definition serial_device (rx : list (option Z)) : world :=
  {| serial_ok := true; socket_ok := true; sendto_ok := true;
     serial_rx := rx; udp_rx := [] |}.

(** Two firmware images with the marker byte, of 4 and of 1025 bytes, and
    the frames of a device answering the two upgrade commands. *)
Definition fw4 : bytearray := [0; 0; 0; 32].
Definition fw1025 : bytearray := [0; 0; 0; 32] ++ replicate 1021 7.

Definition start_reply (status chunk_size : Z) : bytearray :=
  [126; 137; status; chunk_size / 256; chunk_size mod 256; 127].

Definition data_reply (status : Z) : bytearray := [126; 138; status; 127].

Definition sample_udp : comm_interface :=
  {| class := udp_interface; _if_name := "192.168.1.10" |}.

Definition sample_tty : comm_interface :=
  {| class := tty_interface; _if_name := "/dev/ttyUSB0" |}.

(** A run of [run_upgrade] with the concrete modules, over UDP, the
    device delivering the datagrams [rx]. *)
Definition sample_run (content : bytearray) (rx : list bytearray)
  : outcome unit * world * list event :=
  @run_upgrade sample_protocol sample_uframe sample_crc (Some sample_udp)
    content sample_args (udp_device (map Some rx)).

(** ** Observations on runs *)

(** The frames written to the transport, in order. *)
Definition sent (evs : list event) : list bytearray :=
  omap (fun e => match e with EvWrite _ data => Some data | _ => None end) evs.

(** The progress reports: bytes sent so far and total size. *)
Definition progress (evs : list event) : list (Z * Z) :=
  omap (fun e => match e with
                 | StdoutWrite (Progress counter total) => Some (counter, total)
                 | _ => None
                 end) evs.

Arguments sent evs : simpl never.
Arguments progress evs : simpl never.

(** Every event of every run of [m] satisfies [P]. *)
Definition emits_only {S A} (P : event -> Prop) (m : M S A) : Prop :=
  forall s, Forall P (events (m s)).

(** No run of [m] ends in [sys.exit]. *)
Definition never_exits {S A} (m : M S A) : Prop :=
  forall s code, result (m s) <> Exit code.

Definition is_print (e : event) : Prop :=
  match e with
  | PrintLine _ | PrintError _ => True
  | _ => False
  end.

Definition not_close (e : event) : Prop :=
  match e with
  | EvClose _ => False
  | _ => True
  end.

(** Neither the command-failed error nor a command-mismatch warning. *)
Definition not_check_output (e : event) : Prop :=
  e <> PrintError command_failed /\
  forall command resp_command, e <> PrintLine (warn_mismatch command resp_command).

(** What the decoders print: lines other than the mismatch warning. *)
Definition decoder_output (e : event) : Prop :=
  exists t, e = PrintLine t /\
            forall command resp_command, t <> warn_mismatch command resp_command.

(** Put an event in front of the events of a run. *)
Definition after_event {S A} (e : event) (x : outcome A * S * list event)
  : outcome A * S * list event :=
  (result x, final x, e :: events x).

(** The transport can be opened and written to. *)
Definition usable (c : comm_interface) (w : world) : bool :=
  match class c with
  | base_interface => false
  | tty_interface => serial_ok w
  | udp_interface => socket_ok w && sendto_ok w
  end.

Section replies.
Context `{Protocol} `{Uframe}.

(** The successive reads of the transport deliver the frames [rs]. *)
Fixpoint answers (c : comm_interface) (w : world) (rs : list bytearray) : Prop :=
  match rs with
  | [] => True
  | r :: rs' =>
      result (comm_read c w) = Ret r /\ answers c (final (comm_read c w)) rs'
  end.

(** The command a response byte stands for: the byte without its
    response flag. *)
Definition resp_command_of (b : Z) : Z :=
  if truthy (Z.land b cmd_response) then Z.lxor b cmd_response else b.

(** [raw] is a non-empty frame that decodes without error to a response
    to [cmd] whose fields start with [fields]. *)
Definition is_reply (cmd : Z) (fields : bytearray) (raw : bytearray) : Prop :=
  raw <> [] /\
  exists res b rest,
    set_frame raw = (res, b :: fields ++ rest) /\ 0 <= res /\
    resp_command_of b = cmd.

(** What the upgrade session assumes of [protocol], which is not among the
    sources: command identifiers are distinct (here the two upgrade
    commands against the ones tested before them), and a built frame holds
    at least the start marker and the command byte. *)
Definition upgrade_protocol : Prop :=
  cmd_upgrade_start <> cmd_ping /\
  cmd_upgrade_start <> cmd_cal_report /\
  cmd_upgrade_start <> cmd_query /\
  cmd_upgrade_data <> cmd_ping /\
  cmd_upgrade_data <> cmd_cal_report /\
  cmd_upgrade_data <> cmd_query /\
  cmd_upgrade_data <> cmd_upgrade_start /\
  (forall chunk_size crc, (2 <= length (create_upgrade_start chunk_size crc))%nat) /\
  (forall chunk, (2 <= length (create_upgrade_data chunk))%nat).

(** A status that ends the transfer in failure: not continue (which is
    tested first), and one of the four error codes or a code that is not
    success (an unrecognised code). *)
Definition failure_status (status : Z) : Prop :=
  status <> upgrade_continue /\
  (status = upgrade_crc_error \/ status = upgrade_erase_error \/
   status = upgrade_flash_error \/ status = upgrade_overflow_error \/
   status <> upgrade_success).

(** A status on which the loop goes on to the next chunk. *)
Definition going_status (status : Z) : Prop :=
  status = upgrade_continue \/ status = upgrade_success.

(** The status codes are distinct (here success against the error codes
    tested before it). *)
Definition upgrade_statuses : Prop :=
  upgrade_success <> upgrade_crc_error /\
  upgrade_success <> upgrade_erase_error /\
  upgrade_success <> upgrade_flash_error /\
  upgrade_success <> upgrade_overflow_error.

(** The firmware guard lets the upgrade start. *)
Definition guard_passes (content : bytearray) (args : Args) : Prop :=
  content !! 3%nat = Some 32 \/ force args = true.

End replies.

Definition is_byte (b : Z) : Prop := 0 <= b < 256.

(** The values of [counter] after each chunk of the transfer. *)
Fixpoint running (counter : Z) (chunks : list bytearray) : list Z :=
  match chunks with
  | [] => []
  | chunk :: rest =>
      let counter := counter + Z.of_nat (length chunk) in
      counter :: running counter rest
  end.

(** The frames written after the first read of the frame [raw]. *)
Fixpoint written_after (raw : bytearray) (evs : list event) : list bytearray :=
  match evs with
  | [] => []
  | EvRead _ data :: rest =>
      if bool_decide (data = raw) then sent rest else written_after raw rest
  | _ :: rest => written_after raw rest
  end.

(** The keys of the services of one frame that are recorded: those named
    "opendps". *)
Definition opendps_keys (source : string) (ss : list service) : gset string :=
  list_to_set
    (map (discovery_key source)
         (filter (fun s => service_name s = "opendps") ss)).

Section announced.
Context `{Uhej}.

Definition received_keys (r : received) : gset string :=
  match r with
  | SocketError => ∅
  | Datagram data addr src_port =>
      match decode_frame data with
      | None => ∅
      | Some f =>
          if ANNOUNCE =? frame_type f then opendps_keys addr (services f) else ∅
      end
  end.

(** The keys of all the opendps services announced in the datagrams. *)
Fixpoint announced_keys (rx : list received) : gset string :=
  match rx with
  | [] => ∅
  | r :: rx' => received_keys r ∪ announced_keys rx'
  end.

End announced.

Section after_read.
Context `{Protocol} `{Uframe}.

(** The part of [communicate] that follows [resp = comms.read()]: the
    timeout test, the close test, the decoding of the frame and the
    handling of the response. *)
Definition handle_read (comms : comm_interface) (frame : bytearray)
  (args : Args) (quiet : bool) (resp : bytearray)
  : M world (gmap string pyval) :=
  (if (length resp =? 0)%nat then
     fail (Format "timeout talking to device %s" [VStr (_if_name comms)])
   else if verbose args then
     print (Format "RX %2d bytes [%s]\n" [VInt (Z.of_nat (length resp)); VBytes resp])
   else skip) >>
  (if negb (method_truth (comm_close comms)) then
     print (Format "Warning: could not close %s" [VStr (name comms)])
   else skip) >>
  let (res, payload) := set_frame resp in
  if res <? 0 then fail (Format "protocol error (%d)" [VInt res])
  else
    let! command := getitem frame 1 in
    with_local (new_frame payload) (handle_response command args quiet).

(** The command identifiers that [handle_response] knows. *)
Definition known_commands : list Z :=
  [cmd_ping; cmd_cal_report; cmd_query; cmd_upgrade_start; cmd_upgrade_data;
   cmd_set_function; cmd_list_functions; cmd_set_parameters;
   cmd_list_parameters; cmd_enable_output; cmd_temperature_report; cmd_lock;
   cmd_set_calibration; cmd_init].

End after_read.

(** The addresses printed by the discovery listener, in order. *)
Definition reported (evs : list event) : list string :=
  omap (fun e => match e with
                 | PrintLine (Format "%s" [VStr source]) => Some source
                 | _ => None
                 end) evs.

(** The bytes of a text, one a character. *)
Fixpoint text_bytes (s : string) : bytearray :=
  match s with
  | EmptyString => []
  | String c r => Z.of_nat (nat_of_ascii c) :: text_bytes r
  end.

(** The bytes of a terminated text: the text and the terminator. *)
Definition cstr_bytes (s : string) : bytearray := text_bytes s ++ [0].

(** A name as a device lists it: not empty, and without the character of
    code 0. *)
Fixpoint nul_free (s : string) : bool :=
  match s with
  | EmptyString => true
  | String c r => negb (Ascii.eqb c Ascii.zero) && nul_free r
  end.

Definition is_name (s : string) : Prop := s <> EmptyString /\ nul_free s = true.


(** The text holds no colon (as the text of an IPv4 address). *)
Fixpoint colon_free (s : string) : bool :=
  match s with
  | EmptyString => true
  | String c r => negb (Ascii.eqb c ":"%char) && colon_free r
  end.

(** An event other than a write to standard output. *)
Definition not_stdout_write (e : event) : Prop :=
  match e with
  | StdoutWrite _ => False
  | _ => True
  end.

(** An event other than the write-failed error of [communicate]. *)
Definition not_write_failed (e : event) : Prop :=
  forall l, e <> PrintError (Format "write failed on %s" l).

(** No run of [m] returns: each ends in [sys.exit] or in an exception. *)
Definition never_returns {S A} (m : M S A) : Prop :=
  forall s a, result (m s) <> Ret a.

(** * Properties *)

(** ** The monad *)

Lemma bind_ret_run {S A B} (m : M S A) (k : A -> M S B) s a s1 evs :
  m s = (Ret a, s1, evs) ->
  bind m k s = (result (k a s1), final (k a s1), evs ++ events (k a s1)).
Proof.
  intros Hm. unfold bind. rewrite Hm.
  destruct (k a s1) as [[r s2] evs']. reflexivity.
Qed.

Lemma bind_exit_run {S A B} (m : M S A) (k : A -> M S B) s c s1 evs :
  m s = (Exit c, s1, evs) -> bind m k s = (Exit c, s1, evs).
Proof. intros Hm. unfold bind. now rewrite Hm. Qed.

Lemma bind_raise_run {S A B} (m : M S A) (k : A -> M S B) s e s1 evs :
  m s = (Raise e, s1, evs) -> bind m k s = (Raise e, s1, evs).
Proof. intros Hm. unfold bind. now rewrite Hm. Qed.

Lemma bind_ret_l {S A B} (a : A) (k : A -> M S B) s : bind (ret a) k s = k a s.
Proof. unfold bind, ret. now destruct (k a s) as [[r s2] evs]. Qed.

Lemma bind_skip {S B} (k : unit -> M S B) s : bind skip k s = k tt s.
Proof. apply bind_ret_l. Qed.

Lemma bind_emit {S B} (e : event) (k : unit -> M S B) s :
  bind (emit e) k s = (result (k tt s), final (k tt s), e :: events (k tt s)).
Proof. unfold bind, emit. now destruct (k tt s) as [[r s2] evs]. Qed.

Lemma bind_sys_exit {S A B} (m : M S A) code s :
  bind m (fun _ => @sys_exit S B code) s
  = (match result (m s) with
     | Ret _ => Exit code
     | Exit c => Exit c
     | Raise e => Raise e
     end, final (m s), events (m s)).
Proof.
  unfold bind, sys_exit. destruct (m s) as [[[a | c | e] s1] evs]; cbn;
    rewrite ?app_nil_r; reflexivity.
Qed.

Lemma bind_events {S A B} (m : M S A) (k : A -> M S B) s :
  exists tail, events (bind m k s) = events (m s) ++ tail.
Proof.
  unfold bind. destruct (m s) as [[[a | c | e] s1] evs]; cbn.
  - destruct (k a s1) as [[r s2] evs']. now exists evs'.
  - exists []. now rewrite app_nil_r.
  - exists []. now rewrite app_nil_r.
Qed.

Lemma dict_get_lookup {S} (d : gmap string pyval) key v :
  d !! key = Some v -> @dict_get S d key = ret v.
Proof. intros Hl. unfold dict_get. now rewrite Hl. Qed.

Lemma run_eta {S A} (x : outcome A * S * list event) :
  x = (result x, final x, events x).
Proof. now destruct x as [[r s] evs]. Qed.

Section emits.
Context {S : Type} (P : event -> Prop).

Lemma emits_ret {A} (a : A) : emits_only P (@ret S A a).
Proof. intros s. constructor. Qed.

Lemma emits_raise {A} e : emits_only P (@raise S A e).
Proof. intros s. constructor. Qed.

Lemma emits_sys_exit {A} c : emits_only P (@sys_exit S A c).
Proof. intros s. constructor. Qed.

Lemma emits_get : emits_only P (@get S).
Proof. intros s. constructor. Qed.

Lemma emits_put s0 : emits_only P (@put S s0).
Proof. intros s. constructor. Qed.

Lemma emits_emit e : P e -> emits_only P (@emit S e).
Proof. intros He s. repeat constructor. exact He. Qed.

Lemma emits_bind {A B} (m : M S A) (k : A -> M S B) :
  emits_only P m -> (forall a, emits_only P (k a)) -> emits_only P (bind m k).
Proof.
  intros Hm Hk s. specialize (Hm s). unfold bind.
  destruct (m s) as [[[a | c | e] s1] evs]; cbn in *; try exact Hm.
  specialize (Hk a s1). destruct (k a s1) as [[r s2] evs']. cbn in *.
  apply Forall_app; split; assumption.
Qed.

Lemma emits_fail {A} t : P (PrintError t) -> emits_only P (@fail S A t).
Proof.
  intros Ht. unfold fail. apply emits_bind.
  - now apply emits_emit.
  - intros _. apply emits_sys_exit.
Qed.

Lemma emits_getitem l i : emits_only P (@getitem S l i).
Proof. unfold getitem. destruct (l !! i); [apply emits_ret | apply emits_raise]. Qed.

Lemma emits_dict_get d k : emits_only P (@dict_get S d k).
Proof. unfold dict_get. destruct (d !! k); [apply emits_ret | apply emits_raise]. Qed.

End emits.

Lemma emits_with_local {S1 S2 A} P (init : S1) (m : M S1 A) :
  emits_only P m -> emits_only P (@with_local S1 S2 A init m).
Proof.
  intros Hm s. specialize (Hm init). unfold with_local.
  destruct (m init) as [[r f] evs]. exact Hm.
Qed.

Section exits.
Context {S : Type}.

Lemma noexit_ret {A} (a : A) : never_exits (@ret S A a).
Proof. intros s c. discriminate. Qed.

Lemma noexit_raise {A} e : never_exits (@raise S A e).
Proof. intros s c. discriminate. Qed.

Lemma noexit_get : never_exits (@get S).
Proof. intros s c. discriminate. Qed.

Lemma noexit_emit e : never_exits (@emit S e).
Proof. intros s c. discriminate. Qed.

Lemma noexit_bind {A B} (m : M S A) (k : A -> M S B) :
  never_exits m -> (forall a, never_exits (k a)) -> never_exits (bind m k).
Proof.
  intros Hm Hk s c. specialize (Hm s). unfold bind.
  destruct (m s) as [[[a | c' | e] s1] evs]; cbn in *.
  - specialize (Hk a s1 c). destruct (k a s1) as [[r s2] evs']. exact Hk.
  - exfalso. now apply (Hm c').
  - discriminate.
Qed.

Lemma noexit_getitem l i : never_exits (@getitem S l i).
Proof. unfold getitem. destruct (l !! i); [apply noexit_ret | apply noexit_raise]. Qed.

Lemma noexit_dict_get d k : never_exits (@dict_get S d k).
Proof. unfold dict_get. destruct (d !! k); [apply noexit_ret | apply noexit_raise]. Qed.

End exits.

Lemma emits_only_impl {S A} (P Q : event -> Prop) (m : M S A) :
  (forall e, P e -> Q e) -> emits_only P m -> emits_only Q m.
Proof. intros HPQ Hm s. eapply Forall_impl; [apply Hm | exact HPQ]. Qed.

(** ** The frame cursor *)

Lemma emits_unpack8 P : emits_only P unpack8.
Proof. intros f. unfold unpack8. destruct (_ !! _); constructor. Qed.

Lemma noexit_unpack8 : never_exits unpack8.
Proof. intros f c. unfold unpack8. destruct (_ !! _); discriminate. Qed.

Lemma emits_unpack_cstr P : emits_only P unpack_cstr.
Proof. intros f. unfold unpack_cstr. destruct (cstr _). constructor. Qed.

Lemma noexit_unpack_cstr : never_exits unpack_cstr.
Proof. intros f c. unfold unpack_cstr. destruct (cstr _). discriminate. Qed.

Lemma emits_eof P : emits_only P eof.
Proof. intros f. constructor. Qed.

Lemma noexit_eof : never_exits eof.
Proof. intros f c. discriminate. Qed.

Lemma unpack8_run (f : uFrame) b :
  get_frame f !! unpack_pos f = Some b ->
  unpack8 f = (Ret b, advance 1 f, []).
Proof. intros Hb. unfold unpack8. now rewrite Hb. Qed.

(** One step of the structural decomposition of a computation. *)
Ltac emits_step :=
  match goal with
  | |- emits_only _ (bind _ _) => apply emits_bind; [| intros ?]
  | |- emits_only _ (ret _) => apply emits_ret
  | |- emits_only _ skip => apply emits_ret
  | |- emits_only _ (raise _) => apply emits_raise
  | |- emits_only _ (sys_exit _) => apply emits_sys_exit
  | |- emits_only _ get => apply emits_get
  | |- emits_only _ (put _) => apply emits_put
  | |- emits_only _ (getitem _ _) => apply emits_getitem
  | |- emits_only _ (dict_get _ _) => apply emits_dict_get
  | |- emits_only _ unpack8 => apply emits_unpack8
  | |- emits_only _ unpacks8 => unfold unpacks8
  | |- emits_only _ unpack16 => unfold unpack16
  | |- emits_only _ unpack_cstr => apply emits_unpack_cstr
  | |- emits_only _ eof => apply emits_eof
  | |- emits_only _ (print _) => apply emits_emit
  | |- emits_only _ (emit _) => apply emits_emit
  | |- emits_only _ (fail _) => apply emits_fail
  | |- emits_only _ (if ?b then _ else _) => destruct b
  | |- emits_only _ (match ?x with _ => _ end) => destruct x
  end.

Ltac noexit_step :=
  match goal with
  | |- never_exits (bind _ _) => apply noexit_bind; [| intros ?]
  | |- never_exits (ret _) => apply noexit_ret
  | |- never_exits skip => apply noexit_ret
  | |- never_exits (raise _) => apply noexit_raise
  | |- never_exits get => apply noexit_get
  | |- never_exits (getitem _ _) => apply noexit_getitem
  | |- never_exits (dict_get _ _) => apply noexit_dict_get
  | |- never_exits unpack8 => apply noexit_unpack8
  | |- never_exits unpacks8 => unfold unpacks8
  | |- never_exits unpack16 => unfold unpack16
  | |- never_exits unpack_cstr => apply noexit_unpack_cstr
  | |- never_exits eof => apply noexit_eof
  | |- never_exits (print _) => apply noexit_emit
  | |- never_exits (emit _) => apply noexit_emit
  | |- never_exits (if ?b then _ else _) => destruct b
  | |- never_exits (match ?x with _ => _ end) => destruct x
  end.

(** ** The decoders of handle_response *)

Lemma decoder_output_lit s : decoder_output (PrintLine (Lit s)).
Proof. exists (Lit s). split; [reflexivity | discriminate]. Qed.

Lemma decoder_output_json d : decoder_output (PrintLine (JsonDumps d)).
Proof. eexists. split; [reflexivity | discriminate]. Qed.

Lemma decoder_output_report d : decoder_output (PrintLine (QueryReport d)).
Proof. eexists. split; [reflexivity | discriminate]. Qed.

Lemma decoder_output_is_print e : decoder_output e -> is_print e.
Proof. intros (t & -> & _). exact I. Qed.

Lemma decoder_output_not_close e : decoder_output e -> not_close e.
Proof. intros (t & -> & _). exact I. Qed.

Lemma decoder_output_not_check e : decoder_output e -> not_check_output e.
Proof.
  intros (t & -> & Ht). split; [discriminate |].
  intros a b Heq. injection Heq as Heq. now apply (Ht a b).
Qed.

Create HintDb decoder.
#[local] Hint Resolve decoder_output_lit decoder_output_json
  decoder_output_report : decoder.

Ltac decoder_format :=
  eexists; split; [reflexivity | unfold warn_mismatch; intros; discriminate].

Section decoders.
Context `{Protocol}.

Lemma emits_call_unpack P unpack : emits_only P (call_unpack unpack).
Proof. intros f. unfold call_unpack. destruct (unpack _); constructor. Qed.

Lemma noexit_call_unpack unpack : never_exits (call_unpack unpack).
Proof. intros f c. unfold call_unpack. destruct (unpack _); discriminate. Qed.

Lemma emits_unpack_functions fuel name functions :
  emits_only decoder_output (unpack_functions fuel name functions).
Proof.
  revert name functions. induction fuel as [| n IH]; intros name functions; cbn.
  - apply emits_ret.
  - repeat emits_step. apply IH.
Qed.

Lemma noexit_unpack_functions fuel name functions :
  never_exits (unpack_functions fuel name functions).
Proof.
  revert name functions. induction fuel as [| n IH]; intros name functions; cbn.
  - apply noexit_ret.
  - repeat noexit_step. apply IH.
Qed.

Lemma emits_unpack_parameters fuel parameters :
  emits_only decoder_output (unpack_parameters fuel parameters).
Proof.
  revert parameters. induction fuel as [| n IH]; intros parameters; cbn.
  - apply emits_ret.
  - repeat emits_step. apply IH.
Qed.

Lemma noexit_unpack_parameters fuel parameters :
  never_exits (unpack_parameters fuel parameters).
Proof.
  revert parameters. induction fuel as [| n IH]; intros parameters; cbn.
  - apply noexit_ret.
  - repeat noexit_step. apply IH.
Qed.

Lemma emits_report_parameters ps quiet :
  emits_only decoder_output (report_parameters ps quiet).
Proof.
  induction ps as [| p ps IH]; cbn.
  - apply emits_ret.
  - repeat emits_step; try apply IH. decoder_format.
Qed.

Lemma noexit_report_parameters ps quiet :
  never_exits (report_parameters ps quiet).
Proof.
  induction ps as [| p ps IH]; cbn.
  - apply noexit_ret.
  - repeat noexit_step; apply IH.
Qed.

Lemma emits_decode_response resp_command args quiet _json :
  emits_only decoder_output (decode_response resp_command args quiet _json).
Proof.
  unfold decode_response.
  repeat first
    [ apply emits_call_unpack
    | apply emits_unpack_functions
    | apply emits_unpack_parameters
    | apply emits_report_parameters
    | emits_step ];
    auto with decoder; decoder_format.
Qed.

Lemma noexit_decode_response resp_command args quiet _json :
  never_exits (decode_response resp_command args quiet _json).
Proof.
  unfold decode_response.
  repeat first
    [ apply noexit_call_unpack
    | apply noexit_unpack_functions
    | apply noexit_unpack_parameters
    | apply noexit_report_parameters
    | noexit_step ].
Qed.

Lemma emits_dispatch_response resp_command args quiet :
  emits_only decoder_output (dispatch_response resp_command args quiet).
Proof.
  unfold dispatch_response. apply emits_bind.
  - apply emits_decode_response.
  - intros [ret_dict _json]. repeat emits_step. auto with decoder.
Qed.

Lemma noexit_dispatch_response resp_command args quiet :
  never_exits (dispatch_response resp_command args quiet).
Proof.
  unfold dispatch_response. apply noexit_bind.
  - apply noexit_decode_response.
  - intros [ret_dict _json]. repeat noexit_step.
Qed.

End decoders.

(** ** handle_response *)

Section response.
Context `{Protocol}.

Lemma check_response_unflagged command (f : uFrame) b :
  get_frame f !! 0%nat = Some b ->
  Z.land b cmd_response = 0 ->
  check_response command f = (Ret b, f, []).
Proof.
  intros Hb Hflag. unfold check_response, bind, get, getitem.
  rewrite Hb. cbn. unfold truthy. rewrite Hflag. reflexivity.
Qed.

Lemma check_response_flagged command (f : uFrame) b success :
  get_frame f !! 0%nat = Some b ->
  get_frame f !! 1%nat = Some success ->
  Z.land b cmd_response <> 0 ->
  let resp_command := Z.lxor b cmd_response in
  let warning :=
    if neq resp_command command
    then [PrintLine (warn_mismatch command resp_command)] else [] in
  check_response command f =
    if device_failed resp_command success
    then (Exit 1, f, warning ++ [PrintError command_failed])
    else (Ret resp_command, f, warning).
Proof.
  intros Hb Hs Hflag. unfold check_response, bind, get, getitem.
  rewrite Hb. cbn. unfold truthy at 1.
  destruct (Z.eqb_spec (Z.land b cmd_response) 0) as [E | _]; [contradiction |].
  cbn. rewrite Hs. cbn.
  destruct (neq (Z.lxor b cmd_response) command);
    destruct (device_failed (Z.lxor b cmd_response) success); reflexivity.
Qed.

Lemma handle_response_dispatch command args quiet (f : uFrame) resp_command evs :
  check_response command f = (Ret resp_command, f, evs) ->
  handle_response command args quiet f =
    (result (dispatch_response resp_command args quiet f),
     final (dispatch_response resp_command args quiet f),
     evs ++ events (dispatch_response resp_command args quiet f)).
Proof.
  intros Hc. unfold handle_response.
  exact (bind_ret_run (check_response command)
           (fun r => dispatch_response r args quiet) f resp_command f evs Hc).
Qed.

Lemma emits_check_response P command :
  (forall a b, P (PrintLine (warn_mismatch a b))) ->
  P (PrintError command_failed) ->
  emits_only P (check_response command).
Proof.
  intros Hw Hf. unfold check_response. repeat emits_step; auto.
Qed.

Lemma emits_handle_response P command args quiet :
  (forall t, P (PrintLine t)) -> (forall t, P (PrintError t)) ->
  emits_only P (handle_response command args quiet).
Proof.
  intros Hp He. unfold handle_response. apply emits_bind.
  - apply emits_check_response; auto.
  - intros resp_command.
    apply (emits_only_impl decoder_output); [| apply emits_dispatch_response].
    intros e (t & -> & _). apply Hp.
Qed.

(** C10. A frame whose first byte does not carry the response flag is
    decoded directly on that byte: [handle_response] is then the dispatch
    on the raw byte, with neither the success check nor the mismatch
    warning; no event is the command-failed error or a mismatch warning
    and the call does not exit, whatever the second byte is. *)
Theorem unflagged_frame_is_dispatched_directly
  command args quiet (f : uFrame) b :
  get_frame f !! 0%nat = Some b ->
  Z.land b cmd_response = 0 ->
  handle_response command args quiet f = dispatch_response b args quiet f /\
  Forall not_check_output (events (handle_response command args quiet f)) /\
  forall code, result (handle_response command args quiet f) <> Exit code.
Proof.
  intros Hb Hflag.
  assert (Heq : handle_response command args quiet f
                = dispatch_response b args quiet f).
  { rewrite (handle_response_dispatch command args quiet f b []).
    - cbn. symmetry. apply run_eta.
    - now apply check_response_unflagged. }
  rewrite Heq. split; [reflexivity | split].
  - eapply Forall_impl; [apply emits_dispatch_response |].
    apply decoder_output_not_check.
  - intros code. apply noexit_dispatch_response.
Qed.

(** C5. For a response frame with the response flag set and a zero
    success byte: when its command is neither upgrade-start nor
    upgrade-data the call prints the command-failed error (after the
    mismatch warning, if any) and exits with status 1; when it is one of
    the two upgrade commands the error is not printed and the call does
    not exit. *)
Theorem zero_success_is_fatal_except_for_upgrade
  command args quiet (f : uFrame) b rest :
  get_frame f = b :: 0 :: rest ->
  Z.land b cmd_response <> 0 ->
  let resp_command := Z.lxor b cmd_response in
  let run := handle_response command args quiet f in
  (resp_command <> cmd_upgrade_start -> resp_command <> cmd_upgrade_data ->
   result run = Exit 1 /\
   events run =
     (if neq resp_command command
      then [PrintLine (warn_mismatch command resp_command)] else [])
     ++ [PrintError command_failed]) /\
  (resp_command = cmd_upgrade_start \/ resp_command = cmd_upgrade_data ->
   Forall (fun e => e <> PrintError command_failed) (events run) /\
   forall code, result run <> Exit code).
Proof.
  intros Hf Hflag resp_command run.
  assert (Hc := check_response_flagged command f b 0).
  rewrite Hf in Hc. specialize (Hc eq_refl eq_refl Hflag). cbn zeta in Hc.
  fold resp_command in Hc. split.
  - intros Hs Hd.
    assert (Hfail : device_failed resp_command 0 = true).
    { unfold device_failed, neq, truthy.
      destruct (Z.eqb_spec resp_command cmd_upgrade_start); [contradiction |].
      destruct (Z.eqb_spec resp_command cmd_upgrade_data); [contradiction |].
      reflexivity. }
    rewrite Hfail in Hc. subst run. unfold handle_response.
    rewrite (bind_exit_run _ _ _ _ _ _ Hc). split; reflexivity.
  - intros Hup.
    assert (Hok : device_failed resp_command 0 = false).
    { unfold device_failed, neq.
      destruct Hup as [E | E]; rewrite E, Z.eqb_refl; cbn;
        [reflexivity | now destruct (negb _)]. }
    rewrite Hok in Hc. subst run.
    rewrite (handle_response_dispatch _ _ _ _ _ _ Hc). cbn. split.
    + apply Forall_app. split.
      * destruct (neq resp_command command); repeat constructor. discriminate.
      * eapply Forall_impl; [apply emits_dispatch_response |].
        intros e He. apply (decoder_output_not_check e He).
    + intros code. apply noexit_dispatch_response.
Qed.

(** C4. For a response frame (response flag set, success byte present)
    whose command without the flag differs from the command sent: the call
    prints the mismatch warning and then behaves exactly as the call for
    the response's own command: it fails only if that command failed on
    the device, and otherwise decodes the frame under the response's own
    identifier, whatever the command sent. What is decoded is stated for
    the responses that [handle_response] decodes itself: a pong is
    reported, the fields of an upgrade-data response are its status, and
    those of an upgrade-start response its status and the chunk size of
    its two next bytes; the call returns them after the warning (and the
    JSON line, with that option). *)
Theorem mismatch_warns_and_decodes_own_command
  command args quiet (f : uFrame) b success rest :
  get_frame f = b :: success :: rest ->
  Z.land b cmd_response <> 0 ->
  Z.lxor b cmd_response <> command ->
  let resp_command := Z.lxor b cmd_response in
  let warning := PrintLine (warn_mismatch command resp_command) in
  let json_line :=
    if json args
    then [PrintLine (JsonDumps (<["status" := VInt 1]>
                                  (<["cmd" := VInt resp_command]> ∅)))]
    else [] in
  handle_response command args quiet f =
    after_event warning (handle_response resp_command args quiet f) /\
  handle_response command args quiet f =
    after_event warning
      (if device_failed resp_command success
       then fail command_failed f
       else dispatch_response resp_command args quiet f) /\
  (resp_command = cmd_ping -> success <> 0 ->
   handle_response command args quiet f
   = (Ret ∅, f,
      warning :: PrintLine (Lit "Got pong from device") :: json_line)) /\
  (upgrade_protocol -> unpack_pos f = 0%nat ->
   resp_command = cmd_upgrade_data ->
   result (handle_response command args quiet f)
   = Ret (<["status" := VInt success]> ∅) /\
   events (handle_response command args quiet f) = warning :: json_line) /\
  (upgrade_protocol -> unpack_pos f = 0%nat ->
   resp_command = cmd_upgrade_start ->
   forall hi lo rest', rest = hi :: lo :: rest' ->
   result (handle_response command args quiet f)
   = Ret (<["chunk_size" := VInt (Z.lor (Z.shiftl hi 8) lo)]>
            (<["status" := VInt success]> ∅)) /\
   events (handle_response command args quiet f) = warning :: json_line).
Proof.
  intros Hf Hflag Hne resp_command warning json_line.
  assert (Hc := check_response_flagged command f b success).
  assert (Hc' := check_response_flagged resp_command f b success).
  rewrite Hf in Hc, Hc'.
  specialize (Hc eq_refl eq_refl Hflag). specialize (Hc' eq_refl eq_refl Hflag).
  cbn zeta in Hc, Hc'. fold resp_command in Hc, Hc'.
  assert (Hn : neq resp_command command = true).
  { unfold neq. destruct (Z.eqb_spec resp_command command); [contradiction | reflexivity]. }
  assert (Hn' : neq resp_command resp_command = false).
  { unfold neq. now rewrite Z.eqb_refl. }
  rewrite Hn in Hc. rewrite Hn' in Hc'.
  split; [| split; [| split; [| split]]].
  - destruct (device_failed resp_command success).
    + unfold handle_response.
      now rewrite (bind_exit_run _ _ _ _ _ _ Hc), (bind_exit_run _ _ _ _ _ _ Hc').
    + now rewrite (handle_response_dispatch _ _ _ _ _ _ Hc),
        (handle_response_dispatch _ _ _ _ _ _ Hc').
  - destruct (device_failed resp_command success).
    + unfold handle_response.
      now rewrite (bind_exit_run _ _ _ _ _ _ Hc).
    + now rewrite (handle_response_dispatch _ _ _ _ _ _ Hc).
  - intros Hping Hs.
    assert (Hok : device_failed resp_command success = false).
    { unfold device_failed, truthy. destruct (Z.eqb_spec success 0); [contradiction |].
      cbn. apply andb_false_r. }
    rewrite Hok in Hc. rewrite (handle_response_dispatch _ _ _ _ _ _ Hc).
    assert (E : (resp_command =? cmd_ping) = true)
      by (rewrite Hping; apply Z.eqb_refl).
    subst json_line warning.
    unfold dispatch_response, decode_response. rewrite E.
    destruct (json args); reflexivity.
  - intros (_ & _ & _ & H1 & H2 & H3 & H4 & _) Hpos Hdata.
    assert (Hok : device_failed resp_command success = false).
    { unfold device_failed, neq. rewrite Hdata, Z.eqb_refl. cbn.
      now destruct (negb _). }
    rewrite Hok in Hc. rewrite (handle_response_dispatch _ _ _ _ _ _ Hc).
    assert (E : (resp_command =? cmd_upgrade_data) = true)
      by (rewrite Hdata; apply Z.eqb_refl).
    rewrite <- Hdata in H1, H2, H3, H4.
    apply Z.eqb_neq in H1, H2, H3, H4.
    subst json_line warning.
    unfold dispatch_response, decode_response. rewrite H1, H2, H3, H4, E.
    destruct f as [payload pos]. cbn in Hf, Hpos. subst payload pos.
    destruct (json args); split; reflexivity.
  - intros (H1 & H2 & H3 & _) Hpos Hstart hi lo rest' Hrest.
    assert (Hok : device_failed resp_command success = false).
    { unfold device_failed, neq. rewrite Hstart, Z.eqb_refl. reflexivity. }
    rewrite Hok in Hc. rewrite (handle_response_dispatch _ _ _ _ _ _ Hc).
    assert (E : (resp_command =? cmd_upgrade_start) = true)
      by (rewrite Hstart; apply Z.eqb_refl).
    rewrite <- Hstart in H1, H2, H3.
    apply Z.eqb_neq in H1, H2, H3.
    subst json_line warning.
    unfold dispatch_response, decode_response. rewrite H1, H2, H3, E.
    destruct f as [payload pos]. cbn in Hf, Hpos. subst payload pos rest.
    destruct (json args); split; reflexivity.
Qed.

End response.

Lemma unflagged_frame_witness :
  let f := new_frame [1; 0] in
  @handle_response sample_protocol 4 sample_args false f
    = @dispatch_response sample_protocol 1 sample_args false f /\
  Forall not_check_output
         (events (@handle_response sample_protocol 4 sample_args false f)) /\
  forall code,
    result (@handle_response sample_protocol 4 sample_args false f) <> Exit code.
Proof.
  apply (@unflagged_frame_is_dispatched_directly sample_protocol
           4 sample_args false (new_frame [1; 0]) 1); reflexivity.
Defined.

Lemma zero_success_witness :
  (result (@handle_response sample_protocol 1 sample_args false
             (new_frame [129; 0])) = Exit 1 /\
   events (@handle_response sample_protocol 1 sample_args false
             (new_frame [129; 0])) = [PrintError command_failed]) /\
  (Forall (fun e => e <> PrintError command_failed)
          (events (@handle_response sample_protocol 10 sample_args false
                     (new_frame [138; 0]))) /\
   forall code,
     result (@handle_response sample_protocol 10 sample_args false
               (new_frame [138; 0])) <> Exit code).
Proof.
  split.
  - apply (@zero_success_is_fatal_except_for_upgrade sample_protocol
             1 sample_args false (new_frame [129; 0]) 129 []);
      [reflexivity | discriminate | discriminate | discriminate].
  - apply (@zero_success_is_fatal_except_for_upgrade sample_protocol
             10 sample_args false (new_frame [138; 0]) 138 []);
      [reflexivity | discriminate | right; reflexivity].
Defined.

(** ** communicate *)

Section communicate_facts.
Context `{Protocol} `{Uframe}.

Lemma emits_comm_open P c :
  (forall n, P (EvOpen n)) -> emits_only P (comm_open c).
Proof. intros Hp. unfold comm_open. repeat emits_step; auto. Qed.

Lemma emits_comm_write P c data :
  (forall n d, P (EvWrite n d)) -> (forall t, P (PrintError t)) ->
  emits_only P (comm_write c data).
Proof. intros Hp He. unfold comm_write. repeat emits_step; auto. Qed.

Lemma emits_comm_read P c :
  (forall n d, P (EvRead n d)) -> emits_only P (comm_read c).
Proof. intros Hp. unfold comm_read. repeat emits_step; auto. Qed.

Lemma emits_communicate P comms frame args quiet :
  (forall t, P (PrintLine t)) -> (forall t, P (PrintError t)) ->
  (forall n, P (EvOpen n)) -> (forall n d, P (EvWrite n d)) ->
  (forall n d, P (EvRead n d)) ->
  emits_only P (communicate comms frame args quiet).
Proof.
  intros Hp He Ho Hw Hr. unfold communicate.
  repeat first
    [ apply emits_comm_open
    | apply emits_comm_write
    | apply emits_comm_read
    | apply emits_with_local; apply emits_handle_response
    | emits_step ]; auto.
Qed.

(** C2. What the code does: no exchange performed by [communicate] closes
    the transport. The test [if not comms.close:] names the method without
    calling it, so no run of [communicate] contains a close event, with a
    well-formed response or not. *)
Theorem communicate_never_closes comms frame args quiet w :
  Forall not_close (events (communicate comms frame args quiet w)).
Proof.
  apply emits_communicate; intros; exact I.
Qed.

End communicate_facts.

(** Calling [close] does close the UDP transport; the serial one raises
    and closes nothing. *)
Lemma comm_close_closes c w :
  match class c with
  | base_interface => comm_close c w = (Ret false, w, [])
  | tty_interface => comm_close c w = (Raise AttributeError, w, [])
  | udp_interface => comm_close c w = (Ret true, w, [EvClose (name c)])
  end.
Proof. unfold comm_close. destruct (class c); reflexivity. Qed.

(** ** tty_interface.read *)

(** Decide a closed (non-)membership by evaluation. *)
Ltac decide_absent := apply (bool_decide_unpack _); vm_compute; exact I.

Section tty.
Context `{Uframe}.

(** Bytes that are neither marker are kept or dropped as a block. *)
Lemma tty_read_loop_plain body k bytes sof :
  SOF ∉ body -> EOF ∉ body ->
  tty_read_loop (map Some body ++ k) bytes sof
  = tty_read_loop k (if sof then bytes ++ body else bytes) sof.
Proof.
  revert bytes. induction body as [| b body IH]; intros bytes Hs He; cbn.
  - destruct sof; [now rewrite app_nil_r | reflexivity].
  - apply not_elem_of_cons in Hs as [Hs1 Hs2].
    apply not_elem_of_cons in He as [He1 He2].
    destruct (Z.eqb_spec b SOF) as [-> | _]; [contradiction |].
    destruct (Z.eqb_spec b EOF) as [-> | _]; [contradiction |].
    rewrite IH by assumption.
    destruct sof; [now rewrite <- app_assoc | reflexivity].
Qed.

(** A start marker restarts the accumulation. *)
Lemma tty_read_loop_sof k bytes sof :
  SOF <> EOF ->
  tty_read_loop (Some SOF :: k) bytes sof = tty_read_loop k [SOF] true.
Proof.
  intros Hne. cbn. rewrite Z.eqb_refl.
  destruct (Z.eqb_spec SOF EOF); [contradiction | reflexivity].
Qed.

(** Whatever precedes the last start marker is discarded, as long as it
    holds no end marker. *)
Lemma tty_read_loop_discard pre k bytes sof :
  SOF <> EOF -> EOF ∉ pre ->
  tty_read_loop (map Some (pre ++ [SOF]) ++ k) bytes sof
  = tty_read_loop k [SOF] true.
Proof.
  intros Hne. revert bytes sof.
  induction pre as [| b pre IH]; intros bytes sof He.
  - apply tty_read_loop_sof, Hne.
  - apply not_elem_of_cons in He as [He1 He2].
    change (map Some ((b :: pre) ++ [SOF]) ++ k)
      with (Some b :: (map Some (pre ++ [SOF]) ++ k)).
    cbn [tty_read_loop].
    destruct (Z.eqb_spec b EOF) as [-> | _]; [contradiction |].
    apply IH, He2.
Qed.

Lemma tty_read_loop_eof k bytes :
  SOF <> EOF ->
  tty_read_loop (Some EOF :: k) bytes true = (bytes ++ [EOF], k).
Proof.
  intros Hne. cbn. rewrite Z.eqb_refl.
  destruct (Z.eqb_spec EOF SOF) as [E | _]; [now symmetry in E |].
  reflexivity.
Qed.

(** C7, as the code has it. With distinct markers, a stream [pre] without
    end marker, and marker-free bytes [body]:
    - a start marker, [body] and an end marker after [pre] are returned as
      exactly one frame, and the read stops at the end marker;
    - when the port times out after a start marker and [body], the bytes
      of the unfinished frame are returned;
    - when it times out before any start marker, the result is empty. *)
Theorem tty_read_frames (pre body : bytearray) (rest : list (option Z)) :
  SOF <> EOF -> EOF ∉ pre -> SOF ∉ body -> EOF ∉ body ->
  tty_read (map Some (pre ++ [SOF]) ++ map Some body ++ Some EOF :: rest)
    = (SOF :: body ++ [EOF], rest) /\
  tty_read (map Some (pre ++ [SOF]) ++ map Some body ++ None :: rest)
    = (SOF :: body, rest) /\
  tty_read (map Some (pre ++ [SOF]) ++ map Some body ++ [])
    = (SOF :: body, []) /\
  tty_read (map Some body ++ None :: rest) = ([], rest) /\
  tty_read (map Some body ++ []) = ([], []).
Proof.
  intros Hne Hpre Hs He. unfold tty_read.
  repeat split.
  - rewrite tty_read_loop_discard by assumption.
    rewrite tty_read_loop_plain by assumption.
    now apply tty_read_loop_eof.
  - rewrite tty_read_loop_discard by assumption.
    now rewrite tty_read_loop_plain by assumption.
  - rewrite tty_read_loop_discard by assumption.
    now rewrite tty_read_loop_plain by assumption.
  - now rewrite tty_read_loop_plain by assumption.
  - now rewrite tty_read_loop_plain by assumption.
Qed.

End tty.

Lemma tty_read_frames_witness :
  let pre := [5; 126; 9] in
  let body := [10; 0] in
  let rest := [Some 7] in
  @tty_read sample_uframe
     (map Some (pre ++ [126]) ++ map Some body ++ Some 127 :: rest)
    = (126 :: body ++ [127], rest) /\
  @tty_read sample_uframe
     (map Some (pre ++ [126]) ++ map Some body ++ None :: rest)
    = (126 :: body, rest) /\
  @tty_read sample_uframe (map Some (pre ++ [126]) ++ map Some body ++ [])
    = (126 :: body, []) /\
  @tty_read sample_uframe (map Some body ++ None :: rest) = ([], rest) /\
  @tty_read sample_uframe (map Some body ++ []) = ([], []).
Proof.
  apply (@tty_read_frames sample_uframe [5; 126; 9] [10; 0] [Some 7]).
  - discriminate.
  - decide_absent.
  - decide_absent.
  - decide_absent.
Defined.

(** C7 as stated fails: the port delivers a start marker and one byte and
    then times out; no frame was completed, yet the result is not empty. *)
Lemma tty_read_timeout_counterexample :
  ~ (forall (U : Uframe) (pre : bytearray) (rest : list (option Z)),
       EOF ∉ pre -> (tty_read (map Some pre ++ None :: rest)).1 = []).
Proof.
  intros Hclaim.
  specialize (Hclaim sample_uframe [126; 1] []).
  cbn in Hclaim. discriminate Hclaim. decide_absent.
Qed.

(** ** The exchange with a usable transport *)

Lemma sent_app evs1 evs2 : sent (evs1 ++ evs2) = sent evs1 ++ sent evs2.
Proof. apply omap_app. Qed.

Lemma progress_app evs1 evs2 :
  progress (evs1 ++ evs2) = progress evs1 ++ progress evs2.
Proof. apply omap_app. Qed.

Lemma sent_nil : sent [] = [].
Proof. reflexivity. Qed.

Lemma sent_cons e evs :
  sent (e :: evs)
  = match e with EvWrite _ data => data :: sent evs | _ => sent evs end.
Proof. now destruct e. Qed.

Lemma progress_cons e evs :
  progress (e :: evs)
  = match e with
    | StdoutWrite (Progress counter total) => (counter, total) :: progress evs
    | _ => progress evs
    end.
Proof. destruct e as [| | [] | | | |]; reflexivity. Qed.

Lemma prints_sent evs : Forall is_print evs -> sent evs = [].
Proof.
  induction 1 as [| e evs He _ IH]; [reflexivity |].
  destruct e; try contradiction; exact IH.
Qed.

Lemma prints_progress evs : Forall is_print evs -> progress evs = [].
Proof.
  induction 1 as [| e evs He _ IH]; [reflexivity |].
  destruct e; try contradiction; exact IH.
Qed.

Section exchange_facts.
Context `{Protocol} `{Uframe}.

Lemma comm_open_usable c w :
  usable c w = true -> comm_open c w = (Ret true, w, [EvOpen (name c)]).
Proof.
  unfold usable, comm_open. destruct (class c); intros Hu; try discriminate.
  - unfold bind, get. cbn. rewrite Hu. reflexivity.
  - apply andb_true_iff in Hu as [Hs _].
    unfold bind, get. cbn. rewrite Hs. reflexivity.
Qed.

Lemma comm_write_usable c data w :
  usable c w = true ->
  comm_write c data w = (Ret true, w, [EvWrite (name c) data]).
Proof.
  unfold usable, comm_write. destruct (class c); intros Hu; try discriminate.
  - reflexivity.
  - apply andb_true_iff in Hu as [_ Hs].
    unfold bind, get. cbn. rewrite Hs. reflexivity.
Qed.

Lemma comm_read_run c w :
  exists data w' evs,
    comm_read c w = (Ret data, w', evs) /\
    sent evs = [] /\ progress evs = [] /\ usable c w' = usable c w.
Proof.
  unfold comm_read, usable. destruct (class c).
  - exists [], w, []. repeat split.
  - unfold bind, get. cbn. destruct (tty_read (serial_rx w)) as [data rest].
    cbn. eexists _, _, _. repeat split.
  - unfold bind, get. cbn. destruct (udp_read (udp_rx w)) as [data rest].
    cbn. eexists _, _, _. repeat split.
Qed.

(** Over a usable transport the request is the first frame written. *)
Lemma communicate_writes c frame args quiet w :
  usable c w = true ->
  exists more, sent (events (communicate (Some c) frame args quiet w)) = frame :: more.
Proof.
  intros Hu. unfold communicate.
  rewrite (bind_ret_run _ _ _ _ _ _ (comm_open_usable c w Hu)).
  cbn [negb]. rewrite bind_skip.
  destruct (verbose args).
  - unfold print. rewrite (bind_ret_run _ _ w tt w _ (bind_emit _ (fun _ => emit _) w)).
    rewrite (bind_ret_run _ _ _ _ _ _ (comm_write_usable c frame w Hu)).
    cbn [result final events fst snd emit]. eexists.
    repeat (rewrite ?sent_app, ?sent_cons, ?sent_nil; cbn [app]). reflexivity.
  - rewrite bind_skip.
    rewrite (bind_ret_run _ _ _ _ _ _ (comm_write_usable c frame w Hu)).
    cbn [result final events fst snd]. eexists.
    repeat (rewrite ?sent_app, ?sent_cons, ?sent_nil; cbn [app]). reflexivity.
Qed.

(** One exchange over a usable transport that delivers a non-empty frame
    decoding without error: the request is the only frame written, and the
    result is that of [handle_response] on the decoded payload. *)
Lemma communicate_exchange c frame args quiet w resp res payload command :
  usable c w = true ->
  result (comm_read c w) = Ret resp ->
  resp <> [] ->
  set_frame resp = (res, payload) ->
  0 <= res ->
  frame !! 1%nat = Some command ->
  let run := communicate (Some c) frame args quiet w in
  result run = result (handle_response command args quiet (new_frame payload)) /\
  final run = final (comm_read c w) /\
  sent (events run) = [frame] /\
  progress (events run) = [].
Proof.
  intros Hu Hr Hne Hset Hres Hcmd run. subst run.
  destruct (comm_read_run c w) as (data & w' & evs & Hread & Hs & Hp & _).
  rewrite Hread in Hr. cbn in Hr. injection Hr as ->.
  assert (Hlen : (length resp =? 0)%nat = false).
  { destruct resp; [contradiction | reflexivity]. }
  assert (Hneg : (res <? 0) = false) by (apply Z.ltb_ge; exact Hres).
  assert (Hh := emits_handle_response is_print command args quiet
                  (fun _ => I) (fun _ => I) (new_frame payload)).
  unfold communicate, bind.
  rewrite (comm_open_usable c w Hu). cbn.
  destruct (verbose args); cbn;
    rewrite (comm_write_usable c frame w Hu); cbn;
    rewrite Hread; cbn; rewrite Hlen; cbn;
    rewrite Hset, Hneg; unfold getitem; rewrite Hcmd; cbn;
    unfold with_local;
    destruct (handle_response command args quiet (new_frame payload))
      as [[r f'] hevs]; cbn in *;
    repeat split;
    repeat (rewrite ?sent_app, ?progress_app, ?sent_cons, ?progress_cons,
              ?Hs, ?Hp, ?(prints_sent _ Hh), ?(prints_progress _ Hh);
            cbn [app]);
    reflexivity.
Qed.

End exchange_facts.

(** ** Responses to the upgrade commands *)

Section upgrade_replies.
Context `{Protocol}.

Lemma check_response_own_command command (f : uFrame) b second rest cmd :
  get_frame f = b :: second :: rest ->
  resp_command_of b = cmd ->
  cmd = cmd_upgrade_start \/ cmd = cmd_upgrade_data ->
  exists evs, check_response command f = (Ret cmd, f, evs).
Proof.
  intros Hf Hcmd Hup. unfold resp_command_of in Hcmd.
  destruct (truthy (Z.land b cmd_response)) eqn:Hflag.
  - assert (Hc := check_response_flagged command f b second).
    rewrite Hf in Hc. specialize (Hc eq_refl eq_refl).
    assert (Hnz : Z.land b cmd_response <> 0).
    { unfold truthy in Hflag. intros E. rewrite E in Hflag. discriminate. }
    specialize (Hc Hnz). cbn zeta in Hc. rewrite Hcmd in Hc.
    assert (Hok : device_failed cmd second = false).
    { unfold device_failed, neq.
      destruct Hup as [E | E]; rewrite E, Z.eqb_refl; cbn;
        [reflexivity | now destruct (negb _)]. }
    rewrite Hok in Hc. eexists. exact Hc.
  - exists []. subst cmd. apply check_response_unflagged.
    + now rewrite Hf.
    + unfold truthy in Hflag. apply negb_false_iff in Hflag.
      now apply Z.eqb_eq.
Qed.

Lemma decode_upgrade_data args quiet _json b status rest :
  upgrade_protocol ->
  result (decode_response cmd_upgrade_data args quiet _json
            (new_frame (b :: status :: rest)))
  = Ret (<["status" := VInt status]> ∅, _json).
Proof.
  intros (_ & _ & _ & H1 & H2 & H3 & H4 & _).
  unfold decode_response.
  apply Z.eqb_neq in H1, H2, H3, H4. rewrite H1, H2, H3, H4, Z.eqb_refl.
  reflexivity.
Qed.

Lemma decode_upgrade_start args quiet _json b status hi lo rest :
  upgrade_protocol ->
  result (decode_response cmd_upgrade_start args quiet _json
            (new_frame (b :: status :: hi :: lo :: rest)))
  = Ret (<["chunk_size" := VInt (Z.lor (Z.shiftl hi 8) lo)]>
           (<["status" := VInt status]> ∅), _json).
Proof.
  intros (H1 & H2 & H3 & _).
  unfold decode_response.
  apply Z.eqb_neq in H1, H2, H3. rewrite H1, H2, H3, Z.eqb_refl.
  reflexivity.
Qed.

Lemma dispatch_result resp_command args quiet (f : uFrame) d _json' :
  (forall _json, result (decode_response resp_command args quiet _json f)
                 = Ret (d, _json' _json)) ->
  result (dispatch_response resp_command args quiet f) = Ret d.
Proof.
  intros Hd. unfold dispatch_response, bind.
  match goal with
  | |- context [decode_response resp_command args quiet ?j f] =>
      specialize (Hd j);
      destruct (decode_response resp_command args quiet j f) as [[r f'] evs]
  end.
  cbn in Hd. subst r. destruct (json args); reflexivity.
Qed.

Lemma handle_upgrade_data command args quiet b status rest :
  upgrade_protocol ->
  resp_command_of b = cmd_upgrade_data ->
  result (handle_response command args quiet (new_frame (b :: status :: rest)))
  = Ret (<["status" := VInt status]> ∅).
Proof.
  intros Hp Hb.
  destruct (check_response_own_command command
              (new_frame (b :: status :: rest)) b status rest cmd_upgrade_data)
    as [evs Hc]; [reflexivity | exact Hb | now right |].
  rewrite (handle_response_dispatch _ _ _ _ _ _ Hc). cbn [result fst].
  apply (dispatch_result _ _ _ _ _ (fun j => j)). intros j.
  now apply decode_upgrade_data.
Qed.

Lemma handle_upgrade_start command args quiet b status hi lo rest :
  upgrade_protocol ->
  resp_command_of b = cmd_upgrade_start ->
  result (handle_response command args quiet
            (new_frame (b :: status :: hi :: lo :: rest)))
  = Ret (<["chunk_size" := VInt (Z.lor (Z.shiftl hi 8) lo)]>
           (<["status" := VInt status]> ∅)).
Proof.
  intros Hp Hb.
  destruct (check_response_own_command command
              (new_frame (b :: status :: hi :: lo :: rest)) b status
              (hi :: lo :: rest) cmd_upgrade_start)
    as [evs Hc]; [reflexivity | exact Hb | now left |].
  rewrite (handle_response_dispatch _ _ _ _ _ _ Hc). cbn [result fst].
  apply (dispatch_result _ _ _ _ _ (fun j => j)). intros j.
  now apply decode_upgrade_start.
Qed.

End upgrade_replies.

(** ** The transfer loop *)

Section transfer.
Context `{Protocol} `{Uframe}.

Lemma frame_command (frame : bytearray) :
  (2 <= length frame)%nat -> exists command, frame !! 1%nat = Some command.
Proof.
  intros Hlen. destruct (lookup_lt_is_Some_2 frame 1%nat) as [x Hx]; [lia |].
  now exists x.
Qed.

(** One turn of the transfer loop when the device answers the chunk with
    status [status]. *)
Lemma upgrade_chunk_run c args content counter chunk w raw status :
  upgrade_protocol ->
  usable c w = true ->
  result (comm_read c w) = Ret raw ->
  is_reply cmd_upgrade_data [status] raw ->
  let run := upgrade_chunk (Some c) args content counter chunk w in
  let counter' := counter + Z.of_nat (length chunk) in
  final run = final (comm_read c w) /\
  sent (events run) = [create_upgrade_data chunk] /\
  progress (events run) = [(counter', Z.of_nat (length content))] /\
  (upgrade_statuses -> going_status status -> result run = Ret counter') /\
  (failure_status status -> result run = Exit 1).
Proof.
  intros Hp Hu Hr (Hne & res & b & rest & Hset & Hres & Hb) run counter'.
  assert (Hlen : (2 <= length (create_upgrade_data chunk))%nat) by apply Hp.
  destruct (frame_command _ Hlen) as [command Hcmd].
  destruct (communicate_exchange c (create_upgrade_data chunk) args false w
              raw res ([b] ++ [status] ++ rest) command Hu Hr Hne Hset Hres Hcmd)
    as (Hres' & Hfin & Hsent & Hprog).
  cbn [app] in Hres'. rewrite (handle_upgrade_data _ _ _ _ _ _ Hp Hb) in Hres'.
  subst run. unfold upgrade_chunk, bind, emit.
  destruct (communicate (Some c) (create_upgrade_data chunk) args false w)
    as [[r w1] cevs].
  cbn in Hres', Hfin, Hsent, Hprog. subst r w1.
  unfold dict_get. rewrite lookup_insert_eq. cbn [py_eq_int].
  fold counter'.
  assert (Hobs : forall evs,
             sent (StdoutWrite (Progress counter' (Z.of_nat (length content)))
                     :: cevs ++ evs) = create_upgrade_data chunk :: sent evs /\
             progress (StdoutWrite (Progress counter' (Z.of_nat (length content)))
                         :: cevs ++ evs)
             = (counter', Z.of_nat (length content)) :: progress evs).
  { intros evs. rewrite sent_cons, progress_cons, sent_app, progress_app.
    now rewrite Hsent, Hprog. }
  cbn.
  destruct (Z.eqb_spec status upgrade_continue) as [Ec | Nc].
  { cbn. rewrite !app_nil_r, sent_cons, progress_cons, Hsent, Hprog.
    repeat split; try reflexivity. intros [F _]. contradiction. }
  destruct (Z.eqb_spec status upgrade_crc_error) as [E1 | N1];
    [| destruct (Z.eqb_spec status upgrade_erase_error) as [E2 | N2];
       [| destruct (Z.eqb_spec status upgrade_flash_error) as [E3 | N3];
          [| destruct (Z.eqb_spec status upgrade_overflow_error) as [E4 | N4];
             [| destruct (Z.eqb_spec status upgrade_success) as [E5 | N5]]]]];
    cbn; rewrite ?app_nil_r;
    (split; [reflexivity |]);
    (split; [apply Hobs |]);
    (split; [apply Hobs |]);
    split; try reflexivity.
  all: try (intros (S1 & S2 & S3 & S4) [G | G]; congruence).
  all: try (intros [_ [F | [F | [F | [F | F]]]]]; congruence).
  all: intros _ [G | G]; congruence.
Qed.

End transfer.

(** ** Chunks of the firmware file *)

Lemma read_size_ok_range n : - 2 ^ 63 <= n < 2 ^ 63 -> read_size_ok n = true.
Proof.
  intros [Hlo Hhi]. unfold read_size_ok.
  apply andb_true_iff. split; [now apply Z.leb_le | now apply Z.ltb_lt].
Qed.

(** One turn of the generator loop for a size that the read takes. *)
Lemma chunk_loop_step k chunk_size rest :
  0 <= chunk_size -> read_size_ok chunk_size = true ->
  chunk_loop (S k) chunk_size rest
  = match take (Z.to_nat chunk_size) rest with
    | [] => ([], None)
    | chunk =>
        ((chunk :: (chunk_loop k chunk_size (drop (Z.to_nat chunk_size) rest)).1),
         (chunk_loop k chunk_size (drop (Z.to_nat chunk_size) rest)).2)
    end.
Proof.
  intros Hn Hok. cbn [chunk_loop]. unfold file_read. rewrite Hok. cbn [negb].
  destruct (Z.ltb_spec chunk_size 0) as [Hneg | _]; [lia |].
  destruct (take (Z.to_nat chunk_size) rest) as [| b chunk]; [reflexivity |].
  now destruct (chunk_loop k chunk_size (drop (Z.to_nat chunk_size) rest)).
Qed.

Lemma chunk_loop_concat fuel chunk_size rest :
  0 < chunk_size -> read_size_ok chunk_size = true ->
  (length rest < fuel)%nat ->
  concat (chunk_loop fuel chunk_size rest).1 = rest.
Proof.
  intros Hn Hok. revert rest.
  induction fuel as [| k IH]; intros rest Hlen; [lia |].
  rewrite chunk_loop_step by (lia || exact Hok).
  destruct (take (Z.to_nat chunk_size) rest) as [| b chunk] eqn:Htake.
  - destruct rest as [| x rest]; [reflexivity |].
    destruct (Z.to_nat chunk_size) eqn:Hk; [lia | discriminate].
  - cbn [fst concat]. rewrite IH.
    + rewrite <- Htake. apply take_drop.
    + assert (Hl : length (take (Z.to_nat chunk_size) rest) = S (length chunk))
        by now rewrite Htake.
      rewrite length_take in Hl. rewrite length_drop. lia.
Qed.

(** A size that the read takes: no exception ends the generator. *)
Lemma chunk_loop_end fuel chunk_size rest :
  read_size_ok chunk_size = true -> (chunk_loop fuel chunk_size rest).2 = None.
Proof.
  intros Hok. revert rest. induction fuel as [| k IH]; intros rest; [reflexivity |].
  cbn [chunk_loop]. unfold file_read. rewrite Hok. cbn [negb].
  destruct (chunk_size <? 0).
  - destruct rest as [| b rest]; [reflexivity |].
    specialize (IH []). now destruct (chunk_loop k chunk_size []).
  - destruct (take (Z.to_nat chunk_size) rest) as [| b chunk]; [reflexivity |].
    specialize (IH (drop (Z.to_nat chunk_size) rest)).
    now destruct (chunk_loop k chunk_size (drop (Z.to_nat chunk_size) rest)).
Qed.

(** The chunks of a file, put together, are the file. *)
Lemma chunk_from_file_concat content chunk_size :
  0 < chunk_size < 2 ^ 63 ->
  concat (chunk_from_file content chunk_size) = content.
Proof.
  intros Hn. apply chunk_loop_concat; [lia | apply read_size_ok_range; lia | lia].
Qed.

(** The loop over the chunks of 1024 bytes ends without an exception of
    the generator. *)
Lemma generator_end_1024 {S} content :
  @generator_end S (chunk_from_file_end content 1024) = skip.
Proof.
  unfold chunk_from_file_end. now rewrite chunk_loop_end.
Qed.

Lemma bind_skip_r {S} (m : M S unit) s : bind m (fun _ => skip) s = m s.
Proof.
  unfold bind, skip, ret.
  destruct (m s) as [[[[] | c | e] s1] evs]; rewrite ?app_nil_r; reflexivity.
Qed.

Lemma running_last counter chunks :
  chunks <> [] ->
  last (running counter chunks)
  = Some (counter + Z.of_nat (length (concat chunks))).
Proof.
  revert counter. induction chunks as [| chunk rest IH]; intros counter Hne;
    [contradiction |].
  cbn [running concat]. rewrite length_app, Nat2Z.inj_add.
  destruct rest as [| chunk' rest'].
  - cbn. f_equal. lia.
  - change (running (counter + Z.of_nat (length chunk)) (chunk' :: rest'))
      with ((counter + Z.of_nat (length chunk) + Z.of_nat (length chunk'))
              :: running (counter + Z.of_nat (length chunk)
                          + Z.of_nat (length chunk')) rest').
    rewrite last_cons_cons.
    change ((counter + Z.of_nat (length chunk) + Z.of_nat (length chunk'))
              :: running (counter + Z.of_nat (length chunk)
                          + Z.of_nat (length chunk')) rest')
      with (running (counter + Z.of_nat (length chunk)) (chunk' :: rest')).
    rewrite IH by discriminate. f_equal. lia.
Qed.

(** ** The firmware marker *)

Lemma hex_digit_is d (x : nat) :
  0 <= d < 16 -> (x < 16)%nat ->
  hex_digit d = hex_digit (Z.of_nat x) -> d = Z.of_nat x.
Proof.
  intros Hd Hx. unfold hex_digit. rewrite Nat2Z.id.
  remember (Z.to_nat d) as n eqn:Hn.
  assert (Hlt : (n < 16)%nat) by lia.
  assert (Hinj : n = x -> d = Z.of_nat x) by lia.
  clear Hn Hd. intros Heq. apply Hinj. clear Hinj.
  do 16 (destruct n as [| n]; [do 16 (destruct x as [| x]; [first [reflexivity | discriminate Heq] |]); lia |]).
  lia.
Qed.

Lemma hex_byte_20 b :
  is_byte b ->
  String (hex_digit (b / 16)) (String (hex_digit (b mod 16)) EmptyString) = "20"
  <-> b = 32.
Proof.
  intros Hb. unfold is_byte in Hb. split.
  - intros Heq. injection Heq as H1 H2.
    assert (Hq : b / 16 = 2).
    { apply (hex_digit_is (b / 16) 2); [| lia | exact H1].
      split; [apply Z.div_pos; lia | apply Z.div_lt_upper_bound; lia]. }
    assert (Hm : b mod 16 = 0).
    { apply (hex_digit_is (b mod 16) 0); [| lia | exact H2].
      apply Z.mod_pos_bound. lia. }
    rewrite (Z.div_mod b 16) by lia. lia.
  - intros ->. reflexivity.
Qed.

(** The test of [run_upgrade] on the hexadecimal text is a test of the
    fourth byte of the image. *)
Lemma marker_test content :
  Forall is_byte content ->
  String.eqb (slice 6 8 (encode_hex content)) "20" = true
  <-> content !! 3%nat = Some 32.
Proof.
  intros Hbytes. rewrite String.eqb_eq. unfold slice.
  destruct content as [| b0 [| b1 [| b2 [| b3 rest]]]];
    try (cbn; split; discriminate).
  assert (Hb3 : is_byte b3).
  { do 3 apply Forall_cons in Hbytes as [_ Hbytes].
    now apply Forall_cons in Hbytes as [Hb3 _]. }
  cbn [encode_hex Nat.sub substring lookup list_lookup].
  assert (Hsub : forall s, substring 0 0 s = EmptyString) by (intros []; reflexivity).
  rewrite Hsub. rewrite (hex_byte_20 b3 Hb3).
  split; [intros -> | intros [= ->]]; reflexivity.
Qed.

(** ** The upgrade session *)

Section session.
Context `{Protocol} `{Uframe} `{Crc}.

Lemma usable_after_read c w :
  usable c (final (comm_read c w)) = usable c w.
Proof.
  destruct (comm_read_run c w) as (data & w' & evs & Hread & _ & _ & Hu).
  now rewrite Hread.
Qed.

(** The turns of the loop answered with continue or success: the chunks
    are sent one after the other and the loop goes on with the rest. *)
Lemma upgrade_loop_going c args content oks :
  upgrade_protocol -> upgrade_statuses ->
  forall chunks tail w counter,
    usable c w = true ->
    answers c w (oks ++ tail) ->
    Forall (fun r => exists status,
                going_status status /\ is_reply cmd_upgrade_data [status] r) oks ->
    (length oks <= length chunks)%nat ->
    exists w' evs,
      usable c w' = true /\ answers c w' tail /\
      sent evs = map create_upgrade_data (take (length oks) chunks) /\
      progress evs
      = map (fun x => (x, Z.of_nat (length content)))
            (running counter (take (length oks) chunks)) /\
      let rest_run :=
        upgrade_loop (Some c) args content (drop (length oks) chunks)
          (counter + Z.of_nat (length (concat (take (length oks) chunks)))) w' in
      upgrade_loop (Some c) args content chunks counter w
      = (result rest_run, final rest_run, evs ++ events rest_run).
Proof.
  intros Hp Hst. induction oks as [| r oks IH];
    intros chunks tail w counter Hu Hans Hok Hlen.
  - exists w, []. cbn. rewrite Z.add_0_r, drop_0.
    repeat split; try assumption. apply run_eta.
  - destruct chunks as [| chunk chunks]; [cbn in Hlen; lia |].
    cbn in Hlen. destruct Hans as [Hr Hans].
    apply Forall_cons in Hok as [(status & Hgo & Hrep) Hok].
    destruct (upgrade_chunk_run c args content counter chunk w r status
                Hp Hu Hr Hrep) as (Hfin & Hsent & Hprog & Hres & _).
    specialize (Hres Hst Hgo).
    set (w1 := final (comm_read c w)) in *.
    assert (Hu1 : usable c w1 = true) by (subst w1; now rewrite usable_after_read).
    destruct (IH chunks tail w1 (counter + Z.of_nat (length chunk))
                Hu1 Hans Hok ltac:(lia))
      as (w' & evs & Hu' & Hans' & Hsent' & Hprog' & Hrun').
    exists w', (events (upgrade_chunk (Some c) args content counter chunk w) ++ evs).
    cbn [length take drop map running concat].
    rewrite sent_app, progress_app, Hsent, Hprog, Hsent', Hprog'.
    rewrite length_app, Nat2Z.inj_add, Z.add_assoc.
    repeat split; try assumption.
    cbn zeta in Hrun'. cbn zeta.
    cbn [upgrade_loop].
    rewrite (bind_ret_run _ _ w (counter + Z.of_nat (length chunk)) w1
               (events (upgrade_chunk (Some c) args content counter chunk w))).
    + rewrite Hrun'. cbn [result final events fst snd]. now rewrite app_assoc.
    + rewrite (run_eta (upgrade_chunk _ _ _ _ _ _)). now rewrite Hres, Hfin.
Qed.

(** The guard of [run_upgrade] as a boolean. *)
Lemma guard_passes_test content args :
  Forall is_byte content ->
  guard_passes content args ->
  negb (String.eqb (slice 6 8 (encode_hex content)) "20") && negb (force args)
  = false.
Proof.
  intros Hb [Hm | Hf].
  - apply (marker_test content Hb) in Hm. now rewrite Hm.
  - rewrite Hf. apply andb_false_r.
Qed.

(** Past the guard, with upgrade-start answered with continue: the start
    frame is written, then the transfer loop runs over the chunks of 1024
    bytes, and the session ends with [EX_OK] unless the loop ended it. *)
(** The run of the upgrade once upgrade-start is answered with continue:
    the exchange of the start, at most the line on the chunk size, and
    the loop. *)
Lemma run_upgrade_start_run c content args w r0 hi lo :
  upgrade_protocol ->
  Forall is_byte content -> guard_passes content args ->
  usable c w = true ->
  result (comm_read c w) = Ret r0 ->
  is_reply cmd_upgrade_start [upgrade_continue; hi; lo] r0 ->
  let start := communicate (Some c) (create_upgrade_start 1024 (calculate content))
                 args false w in
  let loop := upgrade_loop (Some c) args content
                (chunk_from_file content 1024) 0 (final (comm_read c w)) in
  sent (events start) = [create_upgrade_start 1024 (calculate content)] /\
  progress (events start) = [] /\
  exists pre,
    Forall is_print pre /\
    run_upgrade (Some c) content args w
    = (match result loop with
       | Ret _ => Exit EX_OK
       | Exit code => Exit code
       | Raise e => Raise e
       end, final loop, events start ++ pre ++ events loop).
Proof.
  intros Hp Hb Hg Hu Hr (Hne & res & b & rest & Hset & Hres & Hcmd) start loop.
  assert (Hlen : (2 <= length (create_upgrade_start 1024 (calculate content)))%nat)
    by apply Hp.
  destruct (frame_command _ Hlen) as [command Hc].
  destruct (communicate_exchange c _ args false w r0 res _ command
              Hu Hr Hne Hset Hres Hc) as (Hres' & Hfin & Hsent & Hprog).
  cbn [app] in Hres'. rewrite (handle_upgrade_start _ _ _ _ _ _ _ _ Hp Hcmd) in Hres'.
  split; [exact Hsent | split; [exact Hprog |]].
  assert (Hrun : start
                 = (Ret (<["chunk_size" := VInt (Z.lor (Z.shiftl hi 8) lo)]>
                           (<["status" := VInt upgrade_continue]> ∅)),
                    final (comm_read c w), events start)).
  { rewrite (run_eta start) at 1. subst start. now rewrite Hres', Hfin. }
  unfold run_upgrade. rewrite (guard_passes_test content args Hb Hg).
  rewrite bind_skip. cbn zeta. fold start.
  rewrite (bind_ret_run _ _ _ _ _ _ Hrun).
  rewrite (dict_get_lookup _ "status" (VInt upgrade_continue))
    by (rewrite lookup_insert_ne by discriminate; apply lookup_insert_eq).
  rewrite bind_ret_l. cbn [py_eq_int]. rewrite Z.eqb_refl.
  rewrite bind_sys_exit.
  rewrite (dict_get_lookup _ "chunk_size" _ (lookup_insert_eq _ _ _)).
  rewrite bind_ret_l.
  rewrite generator_end_1024.
  destruct (negb (py_eq_int (VInt (Z.lor (Z.shiftl hi 8) lo)) 1024)).
  - unfold print. rewrite bind_emit, bind_skip_r. fold loop.
    cbn [result final events fst snd].
    exists [PrintLine (Format "Device selected chunk size %d"
                     [VInt (Z.lor (Z.shiftl hi 8) lo)])].
    split; [| reflexivity].
    apply Forall_cons. split; [exact I | apply Forall_nil_2].
  - rewrite bind_skip, bind_skip_r. fold loop.
    cbn [result final events fst snd].
    exists []. split; [apply Forall_nil_2 | reflexivity].
Qed.

Lemma run_upgrade_started c content args w r0 hi lo :
  upgrade_protocol ->
  Forall is_byte content -> guard_passes content args ->
  usable c w = true ->
  result (comm_read c w) = Ret r0 ->
  is_reply cmd_upgrade_start [upgrade_continue; hi; lo] r0 ->
  exists evs0,
    sent evs0 = [create_upgrade_start 1024 (calculate content)] /\
    progress evs0 = [] /\
    let loop := upgrade_loop (Some c) args content
                  (chunk_from_file content 1024) 0 (final (comm_read c w)) in
    result (run_upgrade (Some c) content args w)
    = match result loop with
      | Ret _ => Exit EX_OK
      | Exit code => Exit code
      | Raise e => Raise e
      end /\
    events (run_upgrade (Some c) content args w) = evs0 ++ events loop.
Proof.
  intros Hp Hb Hg Hu Hr Hrep.
  destruct (run_upgrade_start_run c content args w r0 hi lo Hp Hb Hg Hu Hr Hrep)
    as (Hsent & Hprog & pre & Hpre & Heq).
  rewrite Heq.
  exists (events (communicate (Some c)
                    (create_upgrade_start 1024 (calculate content)) args false w)
          ++ pre).
  cbn [result final events fst snd].
  rewrite sent_app, progress_app, Hsent, Hprog,
    (prints_sent _ Hpre), (prints_progress _ Hpre), <- app_assoc.
  repeat split.
Qed.

(** Every turn answered with continue or success: every chunk is sent and
    the loop returns. *)
Lemma upgrade_loop_complete c args content rs chunks w :
  upgrade_protocol -> upgrade_statuses ->
  usable c w = true ->
  answers c w rs ->
  Forall (fun r => exists status,
              going_status status /\ is_reply cmd_upgrade_data [status] r) rs ->
  length rs = length chunks ->
  let loop := upgrade_loop (Some c) args content chunks 0 w in
  result loop = Ret tt /\
  sent (events loop) = map create_upgrade_data chunks /\
  progress (events loop)
  = map (fun x => (x, Z.of_nat (length content))) (running 0 chunks).
Proof.
  intros Hp Hst Hu Hans Hok Hlen loop.
  destruct (upgrade_loop_going c args content rs Hp Hst chunks [] w 0 Hu)
    as (w' & evs & _ & _ & Hsent & Hprog & Hrun).
  - now rewrite app_nil_r.
  - exact Hok.
  - lia.
  - cbn zeta in Hrun. rewrite Hlen, drop_all, take_ge in * by lia.
    subst loop. rewrite Hrun. cbn. rewrite app_nil_r. now repeat split.
Qed.

(** C8. The firmware guard. For an image whose fourth byte (hexadecimal
    positions 6 and 7) is not 0x20, without the force option,
    [run_upgrade] prints the error and exits with status 1 and nothing
    else happens: the transport is not touched. With the marker in place
    or with the force option, and a usable transport, the first frame
    written is the upgrade-start frame with chunk size 1024 and the CRC of
    the image. *)
Theorem firmware_guard comms c content args w :
  Forall is_byte content ->
  (content !! 3%nat <> Some 32 -> force args = false ->
   run_upgrade comms content args w
   = (Exit 1, w,
      [PrintError (Lit "The firmware file does not seem valid, use --force to force upgrade")])) /\
  (guard_passes content args -> usable c w = true ->
   exists more,
     sent (events (run_upgrade (Some c) content args w))
     = create_upgrade_start 1024 (calculate content) :: more).
Proof.
  intros Hb. split.
  - intros Hm Hf. unfold run_upgrade.
    assert (Ht : String.eqb (slice 6 8 (encode_hex content)) "20" = false).
    { apply not_true_is_false. intros Ht. now apply (marker_test content Hb) in Ht. }
    rewrite Ht, Hf. reflexivity.
  - intros Hg Hu. unfold run_upgrade.
    rewrite (guard_passes_test content args Hb Hg).
    rewrite bind_skip. cbn zeta.
    set (frame := create_upgrade_start 1024 (calculate content)).
    match goal with
    | |- context [bind (communicate ?a ?b ?c ?d) ?k w] =>
        destruct (bind_events (communicate a b c d) k w) as [tail ->]
    end.
    rewrite sent_app.
    destruct (communicate_writes c frame args false w Hu) as [more ->].
    cbn [app]. eauto.
Qed.

(** C6. Upgrade-start is answered with continue, the first chunks with
    continue or success, and the next chunk with a failure status (an
    error code or an unrecognised code): the session exits with status 1
    and the data frames written are exactly the chunks up to and including
    the failing one; no further chunk is sent. *)
Theorem failed_chunk_ends_transfer c content args w r0 hi lo oks rfail status :
  upgrade_protocol -> upgrade_statuses ->
  Forall is_byte content -> guard_passes content args ->
  usable c w = true ->
  answers c w (r0 :: oks ++ [rfail]) ->
  is_reply cmd_upgrade_start [upgrade_continue; hi; lo] r0 ->
  Forall (fun r => exists s,
              going_status s /\ is_reply cmd_upgrade_data [s] r) oks ->
  is_reply cmd_upgrade_data [status] rfail ->
  failure_status status ->
  (length oks < length (chunk_from_file content 1024))%nat ->
  let run := run_upgrade (Some c) content args w in
  result run = Exit 1 /\
  sent (events run)
  = create_upgrade_start 1024 (calculate content)
      :: map create_upgrade_data
           (take (S (length oks)) (chunk_from_file content 1024)).
Proof.
  intros Hp Hst Hb Hg Hu [Hr0 Hans] Hstart Hok Hfail Hbad Hlen run.
  destruct (run_upgrade_started c content args w r0 hi lo Hp Hb Hg Hu Hr0 Hstart)
    as (evs0 & Hs0 & _ & Hres & Hevs).
  cbn zeta in Hres, Hevs.
  set (w1 := final (comm_read c w)) in *.
  assert (Hu1 : usable c w1 = true) by (subst w1; now rewrite usable_after_read).
  set (chunks := chunk_from_file content 1024) in *.
  destruct (upgrade_loop_going c args content oks Hp Hst chunks [rfail] w1 0
              Hu1 Hans Hok ltac:(lia))
    as (w' & evs & Hu' & [Hrf _] & Hsent & _ & Hloop).
  cbn zeta in Hloop.
  destruct (lookup_lt_is_Some_2 chunks (length oks) Hlen) as [chunk Hchunk].
  rewrite (drop_S _ _ _ Hchunk) in Hloop. cbn [upgrade_loop] in Hloop.
  match type of Hloop with
  | context [bind (upgrade_chunk ?a ?b ?ct ?n ?ch) ?k w'] =>
      destruct (upgrade_chunk_run c args content n chunk w' rfail status
                  Hp Hu' Hrf Hfail) as (_ & Hcs & _ & _ & Hce);
      specialize (Hce Hbad);
      rewrite (bind_exit_run (upgrade_chunk a b ct n ch) k w' 1
                 (final (upgrade_chunk a b ct n ch w'))
                 (events (upgrade_chunk a b ct n ch w'))) in Hloop
        by (rewrite (run_eta (upgrade_chunk _ _ _ _ _ _)) at 1; now rewrite Hce)
  end.
  cbn [result final events fst snd] in Hloop.
  subst run. rewrite Hres, Hevs, Hloop. cbn [result final events fst snd].
  split; [reflexivity |].
  rewrite !sent_app, Hs0, Hsent, Hcs. cbn [app]. f_equal.
  rewrite (take_S_r _ _ _ Hchunk), map_app. reflexivity.
Qed.

(** Upgrade-start is answered with continue and the upgrade-data commands
    with continue, but for one answered with success, one answer a chunk:
    the session exits with [EX_OK], every chunk of the file is written, in
    order, and the last progress report has the bytes sent equal to the
    size of the file. *)
Lemma transfer_with_a_success c content args w r0 hi lo rs i j :
  upgrade_protocol -> upgrade_statuses ->
  Forall is_byte content -> guard_passes content args ->
  usable c w = true ->
  answers c w (r0 :: rs) ->
  is_reply cmd_upgrade_start [upgrade_continue; hi; lo] r0 ->
  Forall2 (fun status r => is_reply cmd_upgrade_data [status] r)
          (replicate i upgrade_continue ++ upgrade_success
             :: replicate j upgrade_continue) rs ->
  length rs = length (chunk_from_file content 1024) ->
  let run := run_upgrade (Some c) content args w in
  result run = Exit EX_OK /\
  sent (events run)
  = create_upgrade_start 1024 (calculate content)
      :: map create_upgrade_data (chunk_from_file content 1024) /\
  last (progress (events run))
  = Some (Z.of_nat (length content), Z.of_nat (length content)).
Proof.
  intros Hp Hst Hb Hg Hu [Hr0 Hans] Hstart Hrs Hlen run.
  destruct (run_upgrade_started c content args w r0 hi lo Hp Hb Hg Hu Hr0 Hstart)
    as (evs0 & Hs0 & Hp0 & Hres & Hevs).
  cbn zeta in Hres, Hevs.
  set (w1 := final (comm_read c w)) in *.
  assert (Hu1 : usable c w1 = true) by (subst w1; now rewrite usable_after_read).
  assert (Hok : Forall (fun r => exists s,
                          going_status s /\ is_reply cmd_upgrade_data [s] r) rs).
  { apply Forall_forall. intros r Hin.
    apply list_elem_of_lookup in Hin as [n Hn].
    destruct (Forall2_lookup_r _ _ _ _ _ Hrs Hn) as (s & Hs & Hrep).
    exists s. split; [| exact Hrep].
    apply list_elem_of_lookup_2 in Hs.
    apply elem_of_app in Hs as [Hs | Hs].
    - apply elem_of_replicate in Hs as [-> _]. now left.
    - apply elem_of_cons in Hs as [-> | Hs]; [now right |].
      apply elem_of_replicate in Hs as [-> _]. now left. }
  destruct (upgrade_loop_complete c args content rs
              (chunk_from_file content 1024) w1 Hp Hst Hu1 Hans Hok Hlen)
    as (Hlr & Hls & Hlp).
  subst run. rewrite Hres, Hevs, Hlr.
  rewrite sent_app, progress_app, Hs0, Hp0, Hls, Hlp. cbn [app].
  repeat split.
  change (map (fun x => (x, Z.of_nat (length content))))
    with (fmap (M := list) (fun x : Z => (x, Z.of_nat (length content)))).
  rewrite fmap_last, running_last.
  - rewrite chunk_from_file_concat by lia. reflexivity.
  - intros Hnil. rewrite Hnil in Hlen.
    apply Forall2_length in Hrs. rewrite length_app in Hrs. cbn in *. lia.
Qed.

End session.

(** ** Discovery *)

Lemma record_service_run source s (d : gmap string bool) :
  record_service source s d
  = match d !! discovery_key source s with
    | None =>
        if String.eqb (service_name s) "opendps"
        then (Ret tt, <[discovery_key source s := true]> d,
              [PrintLine (Format "%s" [VStr source])])
        else (Ret tt, d, [])
    | Some _ => (Ret tt, d, [])
    end.
Proof.
  unfold record_service, bind, get. cbn.
  destruct (d !! discovery_key source s); [reflexivity |].
  destruct (String.eqb (service_name s) "opendps"); reflexivity.
Qed.

(** A service whose key is recorded changes nothing and prints nothing. *)
Lemma record_service_known source s (d : gmap string bool) :
  discovery_key source s ∈ dom d ->
  record_service source s d = (Ret tt, d, []).
Proof.
  intros Hin. apply elem_of_dom in Hin as [v Hv].
  rewrite record_service_run, Hv. reflexivity.
Qed.

Lemma opendps_keys_nil source : opendps_keys source [] = ∅.
Proof. reflexivity. Qed.

Lemma opendps_keys_cons source s ss :
  opendps_keys source (s :: ss)
  = (if decide (service_name s = "opendps")
     then {[discovery_key source s]} else ∅) ∪ opendps_keys source ss.
Proof.
  unfold opendps_keys. rewrite filter_cons.
  destruct (decide (service_name s = "opendps")).
  - reflexivity.
  - now rewrite (left_id_L ∅ (∪)).
Qed.

Lemma record_service_dom source s (d : gmap string bool) :
  result (record_service source s d) = Ret tt /\
  dom (final (record_service source s d))
  = dom d ∪ (if decide (service_name s = "opendps")
             then {[discovery_key source s]} else ∅).
Proof.
  rewrite record_service_run.
  destruct (d !! discovery_key source s) as [v |] eqn:Hd.
  - split; [reflexivity |]. cbn [final result fst snd].
    assert (Hin : discovery_key source s ∈ dom d) by (apply elem_of_dom; eauto).
    destruct (decide (service_name s = "opendps")).
    + symmetry. rewrite (comm_L (∪)).
      now apply subseteq_union_1_L, singleton_subseteq_l.
    + now rewrite (right_id_L ∅ (∪)).
  - destruct (String.eqb_spec (service_name s) "opendps") as [E | N];
      (split; [reflexivity |]); cbn [final result fst snd].
    + rewrite dom_insert_L.
      destruct (decide (service_name s = "opendps")); [| contradiction].
      apply (comm_L (∪)).
    + destruct (decide (service_name s = "opendps")); [contradiction |].
      now rewrite (right_id_L ∅ (∪)).
Qed.

Lemma record_services_dom source ss (d : gmap string bool) :
  result (record_services source ss d) = Ret tt /\
  dom (final (record_services source ss d)) = dom d ∪ opendps_keys source ss.
Proof.
  revert d. induction ss as [| s ss IH]; intros d.
  - split; [reflexivity |]. rewrite opendps_keys_nil.
    now rewrite (right_id_L ∅ (∪)).
  - cbn [record_services].
    destruct (record_service_dom source s d) as [Hr Hd].
    rewrite (bind_ret_run _ _ d tt (final (record_service source s d))
               (events (record_service source s d)))
      by (rewrite (run_eta (record_service _ _ _)) at 1; now rewrite Hr).
    destruct (IH (final (record_service source s d))) as [Hr' Hd'].
    cbn [result final events fst snd]. split; [exact Hr' |].
    rewrite Hd', Hd, opendps_keys_cons. now rewrite (assoc_L (∪)).
Qed.

(** Services whose recorded keys are all known change nothing. *)
Lemma record_services_known source ss (d : gmap string bool) :
  opendps_keys source ss ⊆ dom d ->
  record_services source ss d = (Ret tt, d, []).
Proof.
  induction ss as [| s ss IH]; intros Hsub; [reflexivity |].
  rewrite opendps_keys_cons in Hsub. cbn [record_services].
  apply union_subseteq in Hsub as [Hs1 Hs2].
  assert (Hs : record_service source s d = (Ret tt, d, [])).
  { rewrite record_service_run.
    destruct (d !! discovery_key source s) as [v |] eqn:Hd; [reflexivity |].
    destruct (String.eqb_spec (service_name s) "opendps") as [E | N];
      [| reflexivity].
    exfalso. apply not_elem_of_dom in Hd. apply Hd, Hs1.
    destruct (decide (service_name s = "opendps")); [| contradiction].
    now apply elem_of_singleton. }
  rewrite (bind_ret_run _ _ _ _ _ _ Hs), (IH Hs2). reflexivity.
Qed.

Section discovery_facts.
Context `{Uhej}.

Lemma uhej_worker_step_dom r (d : gmap string bool) :
  result (uhej_worker_step r d) = Ret tt /\
  dom (final (uhej_worker_step r d)) = dom d ∪ received_keys r.
Proof.
  destruct r as [data addr src_port |]; cbn [uhej_worker_step received_keys].
  - destruct (decode_frame data) as [f |].
    + destruct (ANNOUNCE =? frame_type f).
      * apply record_services_dom.
      * split; [reflexivity |]. cbn [final fst snd skip ret].
        now rewrite (right_id_L ∅ (∪)).
    + split; [reflexivity |]. cbn [final fst snd skip ret].
      now rewrite (right_id_L ∅ (∪)).
  - split; [reflexivity |]. cbn [final fst snd print emit].
    now rewrite (right_id_L ∅ (∪)).
Qed.

Lemma uhej_worker_step_known r (d : gmap string bool) :
  received_keys r ⊆ dom d -> final (uhej_worker_step r d) = d.
Proof.
  intros Hsub.
  destruct r as [data addr src_port |]; cbn [uhej_worker_step received_keys] in *;
    [| reflexivity].
  destruct (decode_frame data) as [f |]; [| reflexivity].
  destruct (ANNOUNCE =? frame_type f); [| reflexivity].
  now rewrite record_services_known.
Qed.

Lemma uhej_worker_thread_dom rx (d : gmap string bool) :
  result (uhej_worker_thread rx d) = Ret tt /\
  dom (final (uhej_worker_thread rx d)) = dom d ∪ announced_keys rx.
Proof.
  revert d. induction rx as [| r rx IH]; intros d.
  - split; [reflexivity |]. cbn [final fst snd skip ret announced_keys].
    now rewrite (right_id_L ∅ (∪)).
  - cbn [uhej_worker_thread announced_keys].
    destruct (uhej_worker_step_dom r d) as [Hr Hd].
    rewrite (bind_ret_run _ _ d tt (final (uhej_worker_step r d))
               (events (uhej_worker_step r d)))
      by (rewrite (run_eta (uhej_worker_step _ _)) at 1; now rewrite Hr).
    destruct (IH (final (uhej_worker_step r d))) as [Hr' Hd'].
    cbn [result final events fst snd]. split; [exact Hr' |].
    rewrite Hd', Hd. now rewrite (assoc_L (∪)).
Qed.

(** C9. Over the datagrams received in a scan window, starting from the
    records [d]: the keys of the record set are those of [d] and the keys
    (source address, port, type) of the announced opendps services, one
    entry a key; a further announce of a service whose key is recorded
    leaves the record set unchanged and prints nothing; and receiving
    again any datagram of the window leaves the record set unchanged. *)
Theorem discovery_records_are_deduplicated
  (rx : list received) (d : gmap string bool) :
  let d' := final (uhej_worker_thread rx d) in
  dom d' = dom d ∪ announced_keys rx /\
  (forall source s,
      discovery_key source s ∈ dom d' ->
      record_service source s d' = (Ret tt, d', [])) /\
  (forall r, r ∈ rx -> final (uhej_worker_step r d') = d').
Proof.
  intros d'. destruct (uhej_worker_thread_dom rx d) as [_ Hd].
  fold d' in Hd. split; [exact Hd | split].
  - intros source s. apply record_service_known.
  - intros r Hin. apply uhej_worker_step_known. rewrite Hd.
    clear Hd d'. induction rx as [| r' rx IH]; [inversion Hin |].
    cbn [announced_keys].
    apply elem_of_cons in Hin as [-> | Hin].
    + etransitivity; [apply union_subseteq_l | apply union_subseteq_r].
    + etransitivity; [apply (IH Hin) |].
      intros x Hx. apply elem_of_union in Hx as [Hx | Hx].
      * apply elem_of_union. now left.
      * apply elem_of_union. right. apply elem_of_union. now right.
Qed.

End discovery_facts.

(** ** Runs with the concrete modules *)

Lemma sample_upgrade_protocol : @upgrade_protocol sample_protocol.
Proof.
  unfold upgrade_protocol. cbn.
  repeat split; try discriminate; intros; rewrite ?length_app; cbn; lia.
Qed.

Lemma sample_upgrade_statuses : @upgrade_statuses sample_protocol.
Proof. repeat split; discriminate. Qed.

Lemma fw1025_bytes : Forall is_byte fw1025.
Proof.
  unfold fw1025. apply Forall_app. split.
  - repeat constructor; unfold is_byte; lia.
  - apply Forall_replicate. unfold is_byte. lia.
Qed.

Lemma fw4_bytes : Forall is_byte fw4.
Proof. repeat constructor; unfold is_byte; lia. Qed.

Lemma fw1025_chunks :
  chunk_from_file fw1025 1024 = [take 1024 fw1025; drop 1024 fw1025].
Proof. vm_compute. reflexivity. Qed.

Lemma sample_start_reply chunk_size :
  0 <= chunk_size ->
  @is_reply sample_protocol sample_uframe 9
    [0; chunk_size / 256; chunk_size mod 256] (start_reply 0 chunk_size).
Proof.
  intros Hc. split; [discriminate |].
  exists 0, 137, []. split; [reflexivity | split; [lia | reflexivity]].
Qed.

Lemma sample_data_reply status :
  @is_reply sample_protocol sample_uframe 10 [status] (data_reply status).
Proof.
  split; [discriminate |].
  exists 0, 138, []. split; [reflexivity | split; [lia | reflexivity]].
Qed.

Lemma mismatch_witness :
  (let run := @handle_response sample_protocol 1 sample_args false
                (new_frame [137; 0; 1; 2]) in
   result run = Ret (<["chunk_size" := VInt 258]> (<["status" := VInt 0]> ∅)) /\
   events run = [PrintLine (warn_mismatch 1 9)]) /\
  @handle_response sample_protocol 4 json_args false (new_frame [129; 1])
  = (Ret ∅, new_frame [129; 1],
     [PrintLine (warn_mismatch 4 1); PrintLine (Lit "Got pong from device");
      PrintLine (JsonDumps (<["status" := VInt 1]> (<["cmd" := VInt 1]> ∅)))]).
Proof.
  split.
  - destruct (@mismatch_warns_and_decodes_own_command sample_protocol
                1 sample_args false (new_frame [137; 0; 1; 2]) 137 0 [1; 2])
      as (_ & _ & _ & _ & Hstart);
      [reflexivity | discriminate | discriminate |].
    apply (Hstart sample_upgrade_protocol eq_refl eq_refl 1 2 [] eq_refl).
  - destruct (@mismatch_warns_and_decodes_own_command sample_protocol
                4 json_args false (new_frame [129; 1]) 129 1 [])
      as (_ & _ & Hping & _);
      [reflexivity | discriminate | discriminate |].
    apply Hping; [reflexivity | discriminate].
Defined.

Lemma firmware_guard_witness :
  sample_run [0; 0; 0; 0] []
  = (Exit 1, udp_device [],
     [PrintError (Lit "The firmware file does not seem valid, use --force to force upgrade")]) /\
  exists more,
    sent (events (sample_run fw4 []))
    = @create_upgrade_start sample_protocol 1024 (@calculate sample_crc fw4) :: more.
Proof.
  split.
  - apply (proj1 (@firmware_guard sample_protocol sample_uframe sample_crc
                    (Some sample_udp) sample_udp [0; 0; 0; 0] sample_args
                    (udp_device [])
                    ltac:(repeat constructor; unfold is_byte; lia)));
      [discriminate | reflexivity].
  - apply (proj2 (@firmware_guard sample_protocol sample_uframe sample_crc
                    (Some sample_udp) sample_udp fw4 sample_args
                    (udp_device []) fw4_bytes));
      [left; reflexivity | reflexivity].
Defined.

Lemma failed_chunk_witness :
  let run := sample_run fw1025 [start_reply 0 1024; data_reply 0; data_reply 2] in
  result run = Exit 1 /\
  sent (events run)
  = @create_upgrade_start sample_protocol 1024 (@calculate sample_crc fw1025)
      :: map (@create_upgrade_data sample_protocol)
           (take 2 (chunk_from_file fw1025 1024)).
Proof.
  apply (@failed_chunk_ends_transfer sample_protocol sample_uframe sample_crc
           sample_udp fw1025 sample_args
           (udp_device (map Some [start_reply 0 1024; data_reply 0; data_reply 2]))
           (start_reply 0 1024) 4 0 [data_reply 0] (data_reply 2) 2).
  - exact sample_upgrade_protocol.
  - exact sample_upgrade_statuses.
  - exact fw1025_bytes.
  - left. reflexivity.
  - reflexivity.
  - repeat split.
  - apply (sample_start_reply 1024). lia.
  - constructor; [| constructor].
    exists 0. split; [left; reflexivity | apply sample_data_reply].
  - apply sample_data_reply.
  - split; [discriminate | left; reflexivity].
  - rewrite fw1025_chunks. cbn. lia.
Defined.

(** A success that answers the first of two chunks: the loop goes on, and
    the second chunk is written after that answer is read. *)
Example early_success_goes_on :
  written_after (data_reply 16)
    (events (sample_run fw1025 [start_reply 0 1024; data_reply 16; data_reply 0]))
  = [@create_upgrade_data sample_protocol (drop 1024 fw1025)].
Proof. vm_compute. reflexivity. Qed.

(** C1. What the code does: the device answers upgrade-start with chunk
    size 2 for a file of 4 bytes. The size is printed, and the file is
    still read and sent with the proposed size 1024, as one chunk of 4
    bytes, not as the two chunks of 2 bytes the device asked for. *)
Theorem device_chunk_size_is_not_adopted :
  let run := sample_run fw4 [start_reply 0 2; data_reply 16] in
  result run = Exit EX_OK /\
  PrintLine (Format "Device selected chunk size %d" [VInt 2]) ∈ events run /\
  sent (events run)
  = [@create_upgrade_start sample_protocol 1024 (@calculate sample_crc fw4);
     @create_upgrade_data sample_protocol [0; 0; 0; 32]] /\
  map (@create_upgrade_data sample_protocol) (chunk_from_file fw4 2)
  = [@create_upgrade_data sample_protocol [0; 0];
     @create_upgrade_data sample_protocol [0; 32]].
Proof.
  cbv zeta. split; [vm_compute; reflexivity |].
  split; [| split; vm_compute; reflexivity].
  assert (He : events (sample_run fw4 [start_reply 0 2; data_reply 16]) !! 3%nat
               = Some (PrintLine (Format "Device selected chunk size %d" [VInt 2])))
    by (vm_compute; reflexivity).
  eapply list_elem_of_lookup_2, He.
Qed.

(** C2 on a concrete exchange: a ping over UDP answered with a pong. The
    transport is opened, written to and read, and the exchange ends
    without a close. *)
Example ping_exchange_leaves_transport_open :
  @communicate sample_protocol sample_uframe (Some sample_udp)
    [126; 1; 127] sample_args false (udp_device [Some [126; 129; 1; 127]])
  = (Ret ∅, udp_device [],
     [EvOpen "192.168.1.10"; EvWrite "192.168.1.10" [126; 1; 127];
      EvRead "192.168.1.10" [126; 129; 1; 127];
      PrintLine (Lit "Got pong from device")]).
Proof. vm_compute. reflexivity. Qed.

(** Two announce frames from the same (address, port, type): one record,
    reported once. *)
Example two_announces_one_record :
  let dg := Datagram [0; 5005; 0; 1] "10.0.0.2" 4321 in
  let run := @uhej_worker_thread sample_uhej [dg; dg] ∅ in
  num_found (final run) = 1%nat /\
  events run = [PrintLine (Format "%s" [VStr "10.0.0.2"])].
Proof. split; vm_compute; reflexivity. Qed.

Lemma discovery_witness :
  let rx := [Datagram [0; 5005; 0; 1] "10.0.0.2" 4321;
             Datagram [0; 5005; 0; 1] "10.0.0.2" 4321] in
  let d' := final (@uhej_worker_thread sample_uhej rx ∅) in
  let s := {| port := 5005; type := 0; service_name := "other" |} in
  dom d' = dom (∅ : gmap string bool) ∪ @announced_keys sample_uhej rx /\
  record_service "10.0.0.2" s d' = (Ret tt, d', []) /\
  final (@uhej_worker_step sample_uhej (Datagram [0; 5005; 0; 1] "10.0.0.2" 4321) d')
  = d'.
Proof.
  intros rx d' s.
  destruct (@discovery_records_are_deduplicated sample_uhej rx ∅)
    as (Hdom & Hknown & Hagain).
  split; [exact Hdom | split].
  - apply Hknown. apply (bool_decide_unpack _). vm_compute. exact I.
  - apply Hagain. apply list_elem_of_here.
Defined.

(** * Further properties *)

(** ** chunk_from_file *)

Lemma chunk_loop_nil fuel chunk_size :
  read_size_ok chunk_size = true -> chunk_loop fuel chunk_size [] = ([], None).
Proof.
  intros Hok. destruct fuel as [| k]; [reflexivity |].
  cbn [chunk_loop]. unfold file_read. rewrite Hok. cbn [negb].
  destruct (chunk_size <? 0); [reflexivity |]. now rewrite take_nil.
Qed.

Lemma chunk_loop_sizes fuel chunk_size rest :
  0 < chunk_size -> read_size_ok chunk_size = true ->
  (length rest < fuel)%nat ->
  let chunks := (chunk_loop fuel chunk_size rest).1 in
  Forall (fun chunk => (0 < length chunk <= Z.to_nat chunk_size)%nat) chunks /\
  forall i chunk,
    chunks !! i = Some chunk -> (S i < length chunks)%nat ->
    length chunk = Z.to_nat chunk_size.
Proof.
  intros Hn Hok. revert rest.
  induction fuel as [| k IH]; intros rest Hlen; [lia |].
  rewrite chunk_loop_step by (lia || exact Hok).
  destruct (take (Z.to_nat chunk_size) rest) as [| b chunk] eqn:Htake.
  { split; [constructor | intros i chunk Hi; discriminate]. }
  assert (Hl : length (take (Z.to_nat chunk_size) rest) = S (length chunk))
    by now rewrite Htake.
  rewrite length_take in Hl.
  destruct (IH (drop (Z.to_nat chunk_size) rest)) as [Hall Hfull].
  { rewrite length_drop. lia. }
  cbn zeta in *. cbn [fst]. split.
  - constructor; [cbn; lia | exact Hall].
  - intros [| i] ch Hi Hlt.
    + cbn in Hi. injection Hi as <-. cbn in Hlt.
      destruct (decide (length rest <= Z.to_nat chunk_size)%nat) as [Hshort |].
      * rewrite drop_ge, chunk_loop_nil in Hlt by (exact Hshort || exact Hok).
        cbn in Hlt. lia.
      * cbn. lia.
    + cbn in Hi, Hlt. apply (Hfull i ch Hi). lia.
Qed.

(** X1. For a positive chunk size of 16 bits (the width of the chunk size
    in the upgrade-start response) the chunks yielded for a file are a
    partition of it: put together they are the file, none is empty or
    longer than the chunk size, and all but the last have exactly the
    chunk size; and no exception ends the generator. *)
Theorem chunk_from_file_partition content chunk_size :
  0 < chunk_size < 2 ^ 16 ->
  let chunks := chunk_from_file content chunk_size in
  concat chunks = content /\
  Forall (fun chunk => (0 < length chunk <= Z.to_nat chunk_size)%nat) chunks /\
  (forall i chunk,
      chunks !! i = Some chunk -> (S i < length chunks)%nat ->
      length chunk = Z.to_nat chunk_size) /\
  chunk_from_file_end content chunk_size = None.
Proof.
  intros Hn chunks.
  assert (Hok : read_size_ok chunk_size = true)
    by (apply read_size_ok_range; lia).
  split; [apply chunk_from_file_concat; lia |].
  destruct (chunk_loop_sizes (S (length content)) chunk_size content)
    as [Hall Hfull]; [lia | exact Hok | lia |].
  split; [exact Hall | split; [exact Hfull |]].
  apply chunk_loop_end, Hok.
Qed.

Lemma chunk_from_file_partition_witness :
  let chunks := chunk_from_file fw1025 1024 in
  concat chunks = fw1025 /\
  Forall (fun chunk => (0 < length chunk <= Z.to_nat 1024)%nat) chunks /\
  (forall i chunk,
      chunks !! i = Some chunk -> (S i < length chunks)%nat ->
      length chunk = Z.to_nat 1024) /\
  chunk_from_file_end fw1025 1024 = None.
Proof. apply (chunk_from_file_partition fw1025 1024). lia. Defined.

(** X2. The other chunk sizes. With chunk size 0 the first read is empty
    and no chunk is yielded, whatever the file holds. An empty file yields
    no chunk, for a negative size of 32 bits and for a size of 16 bits. A
    negative size of 32 bits reads a file that is not empty as one chunk.
    For a size that does not fit 64 bits the first read raises
    [OverflowError]: no chunk is yielded and the exception ends the
    generator. *)
Theorem chunk_from_file_degenerate content chunk_size :
  chunk_from_file content 0 = [] /\
  (- 2 ^ 31 <= chunk_size < 2 ^ 16 -> chunk_from_file [] chunk_size = []) /\
  (- 2 ^ 31 <= chunk_size < 0 -> content <> [] ->
   chunk_from_file content chunk_size = [content] /\
   chunk_from_file_end content chunk_size = None) /\
  (chunk_size < - 2 ^ 63 \/ 2 ^ 63 <= chunk_size ->
   chunk_from_file content chunk_size = [] /\
   chunk_from_file_end content chunk_size = Some OverflowError).
Proof.
  split; [| split; [| split]].
  - unfold chunk_from_file. cbn [chunk_loop]. unfold file_read.
    change (read_size_ok 0) with true. cbn. now rewrite take_0.
  - intros Hn. unfold chunk_from_file.
    rewrite chunk_loop_nil by (apply read_size_ok_range; lia). reflexivity.
  - intros Hneg Hne.
    assert (Hok : read_size_ok chunk_size = true)
      by (apply read_size_ok_range; lia).
    split; [| apply chunk_loop_end, Hok].
    unfold chunk_from_file. cbn [chunk_loop]. unfold file_read.
    rewrite Hok. cbn [negb].
    destruct (Z.ltb_spec chunk_size 0) as [_ | Hge]; [| lia].
    destruct content as [| b content]; [contradiction |].
    now rewrite chunk_loop_nil.
  - intros Hout.
    assert (Hno : read_size_ok chunk_size = false).
    { unfold read_size_ok. apply andb_false_iff.
      destruct Hout; [left; apply Z.leb_gt | right; apply Z.ltb_ge]; lia. }
    unfold chunk_from_file, chunk_from_file_end. cbn [chunk_loop].
    unfold file_read. rewrite Hno. split; reflexivity.
Qed.

Lemma chunk_from_file_degenerate_witness :
  chunk_from_file fw4 0 = [] /\
  chunk_from_file [] (-1) = [] /\
  (chunk_from_file fw4 (-1) = [fw4] /\ chunk_from_file_end fw4 (-1) = None) /\
  (chunk_from_file fw4 (2 ^ 63) = [] /\
   chunk_from_file_end fw4 (2 ^ 63) = Some OverflowError).
Proof.
  destruct (chunk_from_file_degenerate fw4 (-1)) as (H0 & Hnil & Hneg & _).
  destruct (chunk_from_file_degenerate fw4 (2 ^ 63)) as (_ & _ & _ & Hbig).
  split; [exact H0 | split; [apply Hnil; lia | split]].
  - apply Hneg; [lia | discriminate].
  - apply Hbig. right. lia.
Defined.

(** ** What tty_interface.read returns *)

Section tty_shape.
Context `{Uframe}.

(** The two variables of the loop: nothing accumulated before a start
    marker, and afterwards the start marker followed by bytes that are
    neither marker. *)
Lemma tty_read_loop_shape port bytes sof :
  SOF <> EOF ->
  (sof = false /\ bytes = []) \/
  (sof = true /\ exists body, bytes = SOF :: body /\ (SOF ∉ body) /\ (EOF ∉ body)) ->
  let out := (tty_read_loop port bytes sof).1 in
  out = [] \/
  exists body,
    (SOF ∉ body) /\ (EOF ∉ body) /\ (out = SOF :: body \/ out = SOF :: body ++ [EOF]).
Proof.
  intros Hne. revert bytes sof.
  induction port as [| [b |] port IH]; intros bytes sof Hinv; cbn [tty_read_loop].
  - cbn. destruct Hinv as [[_ ->] | (_ & body & -> & Hs & He)]; [now left |].
    right. exists body. auto.
  - destruct (Z.eqb_spec b SOF) as [-> | Hb].
    + destruct (Z.eqb_spec SOF EOF) as [E | _]; [contradiction |].
      apply IH. right. split; [reflexivity |].
      exists []. repeat split; apply not_elem_of_nil.
    + destruct (Z.eqb_spec b EOF) as [-> | Hb'].
      * cbn. destruct Hinv as [[-> ->] | (-> & body & -> & Hs & He)]; [now left |].
        right. exists body. auto.
      * apply IH.
        destruct Hinv as [[-> ->] | (-> & body & -> & Hs & He)]; [now left |].
        right. split; [reflexivity |]. exists (body ++ [b]).
        split; [reflexivity |].
        split; rewrite elem_of_app, list_elem_of_singleton; intros [? | ?];
          congruence.
  - cbn. destruct Hinv as [[_ ->] | (_ & body & -> & Hs & He)]; [now left |].
    right. exists body. auto.
Qed.

(** X3. Whatever the port delivers, with distinct markers the result of
    [read] is empty, or it begins with the only start marker it holds and
    holds an end marker at most as its last byte. *)
Theorem tty_read_shape (port : list (option Z)) :
  SOF <> EOF ->
  let out := (tty_read port).1 in
  out = [] \/
  exists body,
    (SOF ∉ body) /\ (EOF ∉ body) /\ (out = SOF :: body \/ out = SOF :: body ++ [EOF]).
Proof.
  intros Hne. apply tty_read_loop_shape; [exact Hne | now left].
Qed.

(** An end marker met before any start marker ends the read. *)
Lemma tty_read_stray_eof (pre : bytearray) (rest : list (option Z)) :
  SOF <> EOF -> SOF ∉ pre -> EOF ∉ pre ->
  tty_read (map Some pre ++ Some EOF :: rest) = ([], rest).
Proof.
  intros Hne Hs He. unfold tty_read.
  rewrite tty_read_loop_plain by assumption. cbn.
  rewrite Z.eqb_refl.
  destruct (Z.eqb_spec EOF SOF) as [E | _]; [now symmetry in E | reflexivity].
Qed.

End tty_shape.

Lemma tty_read_shape_witness :
  let out := (@tty_read sample_uframe [Some 3; Some 126; Some 4; Some 127; Some 9]).1 in
  out = [] \/
  exists body,
    (126 ∉ body) /\ (127 ∉ body) /\ (out = 126 :: body \/ out = 126 :: body ++ [127]).
Proof.
  apply (@tty_read_shape sample_uframe
           [Some 3; Some 126; Some 4; Some 127; Some 9]).
  discriminate.
Defined.

Section tty_exchange.
Context `{Protocol} `{Uframe}.

(** X4. Over the serial interface, an end marker that arrives before any
    start marker ends the exchange: [communicate] writes the request,
    reads an empty result and fails with the timeout error, exit status 1;
    the bytes that follow the stray end marker stay unread in the port. *)
Theorem stray_end_marker_is_a_timeout
  c frame args quiet w (pre : bytearray) (rest : list (option Z)) :
  class c = tty_interface -> serial_ok w = true ->
  SOF <> EOF -> SOF ∉ pre -> EOF ∉ pre ->
  serial_rx w = map Some pre ++ Some EOF :: rest ->
  let run := communicate (Some c) frame args quiet w in
  result run = Exit 1 /\
  serial_rx (final run) = rest /\
  sent (events run) = [frame] /\
  last (events run)
  = Some (PrintError (Format "timeout talking to device %s" [VStr (_if_name c)])).
Proof.
  intros Hc Hok Hne Hs He Hrx run.
  assert (Hu : usable c w = true) by (unfold usable; now rewrite Hc).
  assert (Hread : comm_read c w
                  = (Ret [], set_serial_rx rest w, [EvRead (name c) []])).
  { unfold comm_read. rewrite Hc. unfold bind, get. cbn.
    rewrite Hrx, (tty_read_stray_eof pre rest Hne Hs He). reflexivity. }
  subst run. unfold communicate.
  rewrite (bind_ret_run _ _ _ _ _ _ (comm_open_usable c w Hu)).
  cbn [negb]. rewrite bind_skip.
  assert (Hrest : forall evs0,
             sent evs0 = [] ->
             let run := bind (comm_write c frame)
               (fun written =>
                  (if negb written
                   then fail (Format "write failed on %s" [VStr (name c)])
                   else skip) >>
                  let! resp := comm_read c in
                  (if (length resp =? 0)%nat
                   then fail (Format "timeout talking to device %s"
                                [VStr (_if_name c)])
                   else if verbose args
                        then print (Format "RX %2d bytes [%s]\n"
                                      [VInt (Z.of_nat (length resp)); VBytes resp])
                        else skip) >>
                  (if negb (method_truth (comm_close c))
                   then print (Format "Warning: could not close %s"
                                 [VStr (name c)])
                   else skip) >>
                  let (res, payload) := set_frame resp in
                  if res <? 0
                  then fail (Format "protocol error (%d)" [VInt res])
                  else let! command := getitem frame 1 in
                       with_local (new_frame payload)
                         (handle_response command args quiet)) w in
             result run = Exit 1 /\
             serial_rx (final run) = rest /\
             sent (evs0 ++ events run) = [frame] /\
             last (evs0 ++ events run)
             = Some (PrintError (Format "timeout talking to device %s"
                                   [VStr (_if_name c)]))).
  { intros evs0 Hevs0. cbn zeta.
    rewrite (bind_ret_run _ _ _ _ _ _ (comm_write_usable c frame w Hu)).
    cbn [negb]. rewrite bind_skip.
    rewrite (bind_ret_run _ _ _ _ _ _ Hread).
    cbn [length Nat.eqb]. unfold fail at 1.
    cbn [result final events fst snd bind emit sys_exit app serial_rx set_serial_rx].
    repeat split.
    - rewrite sent_app, Hevs0.
      repeat (rewrite ?sent_app, ?sent_cons, ?sent_nil; cbn [app]). reflexivity.
    - rewrite last_app. reflexivity. }
  destruct (verbose args).
  - unfold print.
    rewrite (bind_ret_run _ _ w tt w _ (bind_emit _ (fun _ => emit _) w)).
    cbn [result final events fst snd emit].
    destruct (Hrest [EvOpen (name c);
                     PrintLine (Format "Communicating with %s" [VStr (name c)]);
                     PrintLine (Format "TX %2d bytes [%s]"
                                  [VInt (Z.of_nat (length frame)); VBytes frame])]
                eq_refl) as (Hr & Hf & Hsn & Hl).
    repeat split; assumption.
  - rewrite bind_skip.
    destruct (Hrest [EvOpen (name c)] eq_refl) as (Hr & Hf & Hsn & Hl).
    cbn [result final events fst snd].
    repeat split; assumption.
Qed.

End tty_exchange.

Lemma stray_end_marker_witness :
  let w := serial_device [Some 127; Some 126; Some 1; Some 127] in
  let run := @communicate sample_protocol sample_uframe (Some sample_tty)
               [126; 1; 127] sample_args false w in
  result run = Exit 1 /\
  serial_rx (final run) = [Some 126; Some 1; Some 127] /\
  sent (events run) = [[126; 1; 127]] /\
  last (events run)
  = Some (PrintError (Format "timeout talking to device %s"
                        [VStr (_if_name sample_tty)])).
Proof.
  apply (@stray_end_marker_is_a_timeout sample_protocol sample_uframe
           sample_tty [126; 1; 127] sample_args false
           (serial_device [Some 127; Some 126; Some 1; Some 127])
           [] [Some 126; Some 1; Some 127]).
  - reflexivity.
  - reflexivity.
  - discriminate.
  - apply not_elem_of_nil.
  - apply not_elem_of_nil.
  - reflexivity.
Defined.

(** ** The failures of communicate *)

Lemma bind_two_prints {S B} (a b : text) (k : unit -> M S B) s :
  bind (print a >> print b) k s
  = (result (k tt s), final (k tt s),
     PrintLine a :: PrintLine b :: events (k tt s)).
Proof.
  unfold print.
  rewrite (bind_ret_run _ _ s tt s _ (bind_emit _ (fun _ => emit _) s)).
  reflexivity.
Qed.

Section communicate_failures.
Context `{Protocol} `{Uframe}.

Lemma emits_handle_read P c frame args quiet resp :
  (forall t, P (PrintLine t)) -> (forall t, P (PrintError t)) ->
  emits_only P (handle_read c frame args quiet resp).
Proof.
  intros Hp He. unfold handle_read.
  repeat first
    [ apply emits_with_local; apply emits_handle_response
    | emits_step ]; auto.
Qed.

(** Over a usable transport: the interface is opened, the request
    written, one frame read, and the rest is [handle_read] on that
    frame. *)
Lemma communicate_usable c frame args quiet w resp w' revs :
  usable c w = true ->
  comm_read c w = (Ret resp, w', revs) ->
  exists pre,
    Forall (fun e => exists t, e = PrintLine t) pre /\
    let rest := handle_read c frame args quiet resp w' in
    communicate (Some c) frame args quiet w
    = (result rest, final rest,
       EvOpen (name c) :: pre ++ EvWrite (name c) frame :: revs ++ events rest).
Proof.
  intros Hu Hread. unfold communicate.
  rewrite (bind_ret_run _ _ _ _ _ _ (comm_open_usable c w Hu)).
  cbn [negb]. rewrite bind_skip.
  assert (Hrest :
            bind (comm_write c frame)
              (fun written =>
                 (if negb written
                  then fail (Format "write failed on %s" [VStr (name c)])
                  else skip) >>
                 let! resp := comm_read c in
                 handle_read c frame args quiet resp) w
            = (result (handle_read c frame args quiet resp w'),
               final (handle_read c frame args quiet resp w'),
               EvWrite (name c) frame
                 :: revs ++ events (handle_read c frame args quiet resp w'))).
  { rewrite (bind_ret_run _ _ _ _ _ _ (comm_write_usable c frame w Hu)).
    cbn [negb]. rewrite bind_skip.
    rewrite (bind_ret_run _ _ _ _ _ _ Hread). reflexivity. }
  unfold handle_read in Hrest at 1.
  destruct (verbose args).
  - rewrite bind_two_prints, Hrest. cbn [result final events fst snd].
    exists [PrintLine (Format "Communicating with %s" [VStr (name c)]);
            PrintLine (Format "TX %2d bytes [%s]"
                         [VInt (Z.of_nat (length frame)); VBytes frame])].
    split; [| reflexivity].
    apply Forall_cons. split; [eauto |].
    apply Forall_cons. split; [eauto | apply Forall_nil_2].
  - rewrite bind_skip, Hrest. cbn [result final events fst snd].
    exists []. split; [apply Forall_nil_2 | reflexivity].
Qed.

Lemma lines_sent pre :
  Forall (fun e => exists t, e = PrintLine t) pre -> sent pre = [].
Proof.
  intros Hpre. apply prints_sent. eapply Forall_impl; [exact Hpre |].
  intros e [t ->]. exact I.
Qed.

Lemma handle_read_output c frame args quiet resp w :
  sent (events (handle_read c frame args quiet resp w)) = [] /\
  progress (events (handle_read c frame args quiet resp w)) = [].
Proof.
  assert (Hp := emits_handle_read is_print c frame args quiet resp
                  (fun _ => I) (fun _ => I) w).
  split; [now apply prints_sent | now apply prints_progress].
Qed.


Lemma fail_run {A} (t : text) (w : world) :
  @fail world A t w = (Exit 1, w, [PrintError t]).
Proof. reflexivity. Qed.

Lemma handle_read_timeout c frame args quiet w :
  handle_read c frame args quiet [] w
  = (Exit 1, w,
     [PrintError (Format "timeout talking to device %s" [VStr (_if_name c)])]).
Proof.
  unfold handle_read. cbn [length Nat.eqb].
  apply bind_exit_run, fail_run.
Qed.

(** X5. A timeout is fatal. Over a transport that can be opened and
    written to, when the read yields nothing [communicate] writes the
    request, prints the timeout error and exits with status 1; nothing is
    decoded. *)
Theorem timeout_is_fatal c frame args quiet w :
  usable c w = true ->
  result (comm_read c w) = Ret [] ->
  let run := communicate (Some c) frame args quiet w in
  result run = Exit 1 /\
  final run = final (comm_read c w) /\
  sent (events run) = [frame] /\
  last (events run)
  = Some (PrintError (Format "timeout talking to device %s" [VStr (_if_name c)])).
Proof.
  intros Hu Hr run.
  destruct (comm_read_run c w) as (data & w' & revs & Hread & Hs & _ & _).
  rewrite Hread in Hr. cbn in Hr. injection Hr as ->.
  destruct (communicate_usable c frame args quiet w [] w' revs Hu Hread)
    as (pre & Hpre & Hrun).
  cbn zeta in Hrun. subst run.
  rewrite Hrun, Hread, handle_read_timeout.
  cbn [result final events fst snd].
  repeat split.
  - rewrite sent_cons, sent_app, (lines_sent _ Hpre), sent_cons, sent_app, Hs.
    reflexivity.
  - change (EvOpen (name c) :: pre ++ EvWrite (name c) frame :: revs ++
              [PrintError (Format "timeout talking to device %s"
                             [VStr (_if_name c)])])
      with ([EvOpen (name c)] ++ pre ++ [EvWrite (name c) frame] ++ revs ++
              [PrintError (Format "timeout talking to device %s"
                             [VStr (_if_name c)])]).
    rewrite !last_app. reflexivity.
Qed.

(** X6. A frame that does not decode is fatal. When [set_frame] returns a
    negative code for the frame read, [communicate] prints the protocol
    error with that code and exits with status 1. *)
Theorem protocol_error_is_fatal c frame args quiet w resp res payload :
  usable c w = true ->
  result (comm_read c w) = Ret resp ->
  resp <> [] ->
  set_frame resp = (res, payload) ->
  res < 0 ->
  let run := communicate (Some c) frame args quiet w in
  result run = Exit 1 /\
  sent (events run) = [frame] /\
  last (events run)
  = Some (PrintError (Format "protocol error (%d)" [VInt res])).
Proof.
  intros Hu Hr Hne Hset Hneg run.
  destruct (comm_read_run c w) as (data & w' & revs & Hread & Hs & _ & _).
  rewrite Hread in Hr. cbn in Hr. injection Hr as ->.
  destruct (communicate_usable c frame args quiet w resp w' revs Hu Hread)
    as (pre & Hpre & Hrun).
  cbn zeta in Hrun. subst run. rewrite Hrun.
  destruct (handle_read_output c frame args quiet resp w') as [Hhs _].
  assert (Hrest : result (handle_read c frame args quiet resp w') = Exit 1 /\
                  last (events (handle_read c frame args quiet resp w'))
                  = Some (PrintError (Format "protocol error (%d)" [VInt res]))).
  { unfold handle_read.
    assert (Hlen : (length resp =? 0)%nat = false)
      by (destruct resp; [contradiction | reflexivity]).
    rewrite Hlen, Hset. apply Z.ltb_lt in Hneg. rewrite Hneg.
    unfold bind, fail, print, emit, sys_exit, skip, ret.
    destruct (verbose args); cbn; split; reflexivity. }
  destruct Hrest as [Hres Hlast].
  cbn [result final events fst snd]. split; [exact Hres | split].
  - rewrite sent_cons, sent_app, (lines_sent _ Hpre), sent_cons, sent_app,
      Hs, Hhs. reflexivity.
  - change (EvOpen (name c) :: pre ++ EvWrite (name c) frame :: revs ++
              events (handle_read c frame args quiet resp w'))
      with ([EvOpen (name c)] ++ pre ++ [EvWrite (name c) frame] ++ revs ++
              events (handle_read c frame args quiet resp w')).
    rewrite !last_app, Hlast. reflexivity.
Qed.

End communicate_failures.

(** ** What communicate writes, and what it never prints *)

Section communicate_output.
Context `{Protocol} `{Uframe}.

Lemma emits_handle_response_lines P command args quiet :
  (forall t, P (PrintLine t)) ->
  P (PrintError command_failed) ->
  emits_only P (handle_response command args quiet).
Proof.
  intros Hl Hf. unfold handle_response. apply emits_bind.
  - apply emits_check_response; auto.
  - intros resp_command.
    apply (emits_only_impl decoder_output); [| apply emits_dispatch_response].
    intros e (t & -> & _). apply Hl.
Qed.

Lemma handle_read_not_write_failed c frame args quiet resp :
  emits_only not_write_failed (handle_read c frame args quiet resp).
Proof.
  unfold handle_read.
  repeat first
    [ apply emits_with_local; apply emits_handle_response_lines
    | emits_step ];
    intros; unfold not_write_failed; intros ?; discriminate.
Qed.

(** When the transport cannot be opened or written to, [communicate]
    leaves the world as it is, writes nothing and does not return. *)
Lemma communicate_unusable c frame args quiet w :
  usable c w = false ->
  let run := communicate (Some c) frame args quiet w in
  final run = w /\
  sent (events run) = [] /\
  (forall d, result run <> Ret d) /\
  Forall not_write_failed (events run).
Proof.
  unfold usable, communicate, comm_open, comm_write.
  destruct (class c); intros Hu.
  - cbn. repeat split; try discriminate.
    repeat constructor. intros l. discriminate.
  - unfold bind, get. cbn. rewrite Hu. cbn.
    repeat split; try discriminate. constructor.
  - unfold bind, get. cbn.
    destruct (socket_ok w); cbn.
    + cbn in Hu.
      destruct (verbose args); cbn; rewrite Hu; cbn;
        (repeat split; try discriminate);
        repeat (apply Forall_cons; split; [intros l; discriminate |]);
        apply Forall_nil_2.
    + repeat split; try discriminate.
      repeat constructor. intros l. discriminate.
Qed.

(** X7. One request an exchange. In every run of [communicate] over an
    interface, the frames written are the request alone when the transport
    can be opened and written to, and nothing otherwise; and the call
    returns a result only in the first case. *)
Theorem communicate_writes_the_request_once c frame args quiet w :
  let run := communicate (Some c) frame args quiet w in
  sent (events run) = (if usable c w then [frame] else []) /\
  (forall d, result run = Ret d -> usable c w = true).
Proof.
  intros run. destruct (usable c w) eqn:Hu.
  - split; [| reflexivity].
    destruct (comm_read_run c w) as (resp & w' & revs & Hread & Hs & _ & _).
    destruct (communicate_usable c frame args quiet w resp w' revs Hu Hread)
      as (pre & Hpre & Hrun).
    cbn zeta in Hrun. subst run. rewrite Hrun. cbn [events snd].
    destruct (handle_read_output c frame args quiet resp w') as [Hhs _].
    rewrite sent_cons, sent_app, (lines_sent _ Hpre), sent_cons, sent_app,
      Hs, Hhs. reflexivity.
  - destruct (communicate_unusable c frame args quiet w Hu) as (_ & Hs & Hr & _).
    split; [exact Hs |]. intros d Hd. now apply Hr in Hd.
Qed.

(** X8. The write-failed error of [communicate] is dead: no run prints
    it. An interface whose [write] returns false (the abstract one)
    cannot be opened, and the [write] of the two others returns true or
    ends the run itself. *)
Theorem write_failed_is_never_printed comms frame args quiet w :
  Forall not_write_failed (events (communicate comms frame args quiet w)).
Proof.
  destruct comms as [c |];
    [| repeat constructor; intros l; discriminate].
  destruct (usable c w) eqn:Hu;
    [| now apply (communicate_unusable c frame args quiet w Hu)].
  destruct (comm_read_run c w) as (resp & w' & revs & Hread & _).
  assert (Hrevs : Forall not_write_failed revs).
  { assert (Hr := emits_comm_read not_write_failed c
                    ltac:(intros n d l; discriminate) w).
    now rewrite Hread in Hr. }
  destruct (communicate_usable c frame args quiet w resp w' revs Hu Hread)
    as (pre & Hpre & Hrun).
  cbn zeta in Hrun. rewrite Hrun. cbn [events snd].
  apply Forall_cons. split; [intros l; discriminate |].
  apply Forall_app. split.
  - eapply Forall_impl; [exact Hpre |].
    intros e [t ->] l. discriminate.
  - apply Forall_cons. split; [intros l; discriminate |].
    apply Forall_app. split; [exact Hrevs |].
    apply handle_read_not_write_failed.
Qed.

End communicate_output.

Lemma timeout_witness :
  let w := udp_device [None; Some (data_reply 0)] in
  let run := @communicate sample_protocol sample_uframe (Some sample_udp)
               [126; 1; 127] sample_args false w in
  result run = Exit 1 /\
  final run = final (@comm_read sample_uframe sample_udp w) /\
  sent (events run) = [[126; 1; 127]] /\
  last (events run)
  = Some (PrintError (Format "timeout talking to device %s"
                        [VStr (_if_name sample_udp)])).
Proof.
  apply (@timeout_is_fatal sample_protocol sample_uframe sample_udp
           [126; 1; 127] sample_args false
           (udp_device [None; Some (data_reply 0)])); reflexivity.
Defined.

Lemma protocol_error_witness :
  let w := udp_device [Some [1; 2; 3]] in
  let run := @communicate sample_protocol sample_uframe (Some sample_udp)
               [126; 1; 127] sample_args false w in
  result run = Exit 1 /\
  sent (events run) = [[126; 1; 127]] /\
  last (events run)
  = Some (PrintError (Format "protocol error (%d)" [VInt (-1)])).
Proof.
  apply (@protocol_error_is_fatal sample_protocol sample_uframe sample_udp
           [126; 1; 127] sample_args false (udp_device [Some [1; 2; 3]])
           [1; 2; 3] (-1) []).
  - reflexivity.
  - reflexivity.
  - discriminate.
  - reflexivity.
  - lia.
Defined.

Lemma one_request_witness :
  let run := @communicate sample_protocol sample_uframe (Some sample_udp)
               [126; 1; 127] sample_args false
               (udp_device [Some [126; 129; 1; 127]]) in
  sent (events run) = [[126; 1; 127]] /\
  usable sample_udp (udp_device [Some [126; 129; 1; 127]]) = true.
Proof.
  destruct (@communicate_writes_the_request_once sample_protocol sample_uframe
              sample_udp [126; 1; 127] sample_args false
              (udp_device [Some [126; 129; 1; 127]])) as [Hs Hr].
  split; [exact Hs |]. apply (Hr ∅). reflexivity.
Defined.

(** ** Frames that handle_response does not know, or cannot index *)

Section odd_frames.
Context `{Protocol}.

Lemma decode_unknown resp_command args quiet _json (f : uFrame) :
  resp_command ∉ known_commands ->
  decode_response resp_command args quiet _json f
  = (Ret (∅, _json), f,
     [PrintLine (Format "Unknown response %d from device." [VInt resp_command])]).
Proof.
  intros Hk. unfold known_commands in Hk.
  repeat (apply not_elem_of_cons in Hk as [?%Z.eqb_neq Hk]).
  unfold decode_response.
  repeat match goal with
         | E : (resp_command =? _) = false |- _ => rewrite E; clear E
         end.
  reflexivity.
Qed.

(** X9. A response whose command is none of the fourteen that
    [handle_response] knows is reported and does not fail the call: for a
    frame without the response flag, or with a success byte that is not
    zero, the call prints the unknown-response line and returns an empty
    dictionary, and reads nothing from the frame. *)
Theorem unknown_response_is_reported
  command args quiet (f : uFrame) b success rest :
  get_frame f = b :: success :: rest ->
  Z.land b cmd_response = 0 \/ success <> 0 ->
  resp_command_of b ∉ known_commands ->
  let run := handle_response command args quiet f in
  result run = Ret ∅ /\
  final run = f /\
  PrintLine (Format "Unknown response %d from device."
               [VInt (resp_command_of b)]) ∈ events run.
Proof.
  intros Hf Hok Hk run.
  assert (Hc : exists evs,
             check_response command f = (Ret (resp_command_of b), f, evs)).
  { unfold resp_command_of in *.
    destruct (truthy (Z.land b cmd_response)) eqn:Hflag.
    - assert (Hnz : Z.land b cmd_response <> 0).
      { unfold truthy in Hflag. intros E. rewrite E in Hflag. discriminate. }
      destruct Hok as [E | Hs]; [contradiction |].
      assert (Hcr := check_response_flagged command f b success).
      rewrite Hf in Hcr. specialize (Hcr eq_refl eq_refl Hnz). cbn zeta in Hcr.
      assert (Hd : device_failed (Z.lxor b cmd_response) success = false).
      { unfold device_failed, truthy.
        destruct (Z.eqb_spec success 0); [contradiction |].
        cbn. apply andb_false_r. }
      rewrite Hd in Hcr. eauto.
    - exists []. apply check_response_unflagged; [now rewrite Hf |].
      unfold truthy in Hflag. apply negb_false_iff in Hflag.
      now apply Z.eqb_eq. }
  destruct Hc as [evs Hc].
  subst run. rewrite (handle_response_dispatch _ _ _ _ _ _ Hc).
  unfold dispatch_response.
  match goal with
  | |- context [decode_response ?r ?a ?q ?j] =>
      rewrite !(bind_ret_run (decode_response r a q j) _ f (∅, j) f _
                  (decode_unknown r a q j f Hk))
  end.
  cbn [result final events fst snd].
  destruct (json args).
  - unfold print. rewrite !bind_emit. cbn [result final events fst snd ret].
    repeat split. rewrite elem_of_app. right. apply list_elem_of_here.
  - rewrite !bind_skip. cbn [result final events fst snd ret].
    repeat split. rewrite elem_of_app. right. apply list_elem_of_here.
Qed.

(** X10. Frames too short to index end the call with an uncaught
    [IndexError], before anything is printed: an empty payload, and a
    payload of one byte that carries the response flag (its success byte
    is missing). *)
Theorem short_frame_raises command args quiet b :
  handle_response command args quiet (new_frame [])
  = (Raise IndexError, new_frame [], []) /\
  (Z.land b cmd_response <> 0 ->
   handle_response command args quiet (new_frame [b])
   = (Raise IndexError, new_frame [b], [])).
Proof.
  split.
  - reflexivity.
  - intros Hflag. unfold handle_response, check_response, bind, get, getitem.
    cbn. unfold truthy.
    destruct (Z.eqb_spec (Z.land b cmd_response) 0); [contradiction |].
    reflexivity.
Qed.

End odd_frames.

Lemma unknown_response_witness :
  let run := @handle_response sample_protocol 1 sample_args false
               (new_frame [200; 1]) in
  result run = Ret ∅ /\
  final run = new_frame [200; 1] /\
  PrintLine (Format "Unknown response %d from device."
               [VInt (@resp_command_of sample_protocol 200)]) ∈ events run.
Proof.
  apply (@unknown_response_is_reported sample_protocol 1 sample_args false
           (new_frame [200; 1]) 200 1 []).
  - reflexivity.
  - right. discriminate.
  - decide_absent.
Defined.

Lemma short_frame_witness :
  @handle_response sample_protocol 1 sample_args false (new_frame [])
  = (Raise IndexError, new_frame [], []) /\
  @handle_response sample_protocol 1 sample_args false (new_frame [129])
  = (Raise IndexError, new_frame [129], []).
Proof.
  destruct (@short_frame_raises sample_protocol 1 sample_args false 129)
    as [Hnil Hone].
  split; [exact Hnil | apply Hone; discriminate].
Defined.

(** ** Every run of the upgrade *)

Lemma bind_assoc {S A B C} (m : M S A) (k : A -> M S B) (h : B -> M S C) s :
  bind (bind m k) h s = bind m (fun x => bind (k x) h) s.
Proof.
  unfold bind. destruct (m s) as [[[a | c | e] s1] evs]; try reflexivity.
  destruct (k a s1) as [[[b | c | e] s2] evs']; try reflexivity.
  destruct (h b s2) as [[r s3] evs'']. now rewrite app_assoc.
Qed.

Lemma bind_raise_l {S A B} (e : exn) (k : A -> M S B) s :
  bind (raise e) k s = (Raise e, s, []).
Proof. reflexivity. Qed.

Lemma quiet_progress evs : Forall not_stdout_write evs -> progress evs = [].
Proof.
  induction 1 as [| e evs He _ IH]; [reflexivity |].
  destruct e as [| | [] | | | |]; try contradiction; exact IH.
Qed.

Lemma never_returns_bind_r {S A B} (m : M S A) (k : A -> M S B) :
  (forall a, never_returns (k a)) -> never_returns (bind m k).
Proof.
  intros Hk s b. unfold bind.
  destruct (m s) as [[[a | c | e] s1] evs]; cbn; try discriminate.
  specialize (Hk a s1 b). destruct (k a s1) as [[r s2] evs']. exact Hk.
Qed.

Lemma never_returns_sys_exit {S A} code : never_returns (@sys_exit S A code).
Proof. intros s a. discriminate. Qed.

Section every_upgrade.
Context `{Protocol} `{Uframe} `{Crc}.

(** X11. [run_upgrade] does not return: every run ends in [sys.exit] or
    in an uncaught exception, so what follows the call in
    [handle_commands] is not run after an upgrade. *)
Theorem run_upgrade_never_returns comms content args :
  never_returns (run_upgrade comms content args).
Proof.
  unfold run_upgrade.
  do 4 (apply never_returns_bind_r; intros ?).
  apply never_returns_sys_exit.
Qed.

Lemma communicate_progress comms frame args quiet w :
  progress (events (communicate comms frame args quiet w)) = [].
Proof.
  apply quiet_progress. apply emits_communicate; intros; exact I.
Qed.

(** What any exchange writes, with or without an interface. *)
Lemma communicate_sent comms frame args quiet w :
  let run := communicate comms frame args quiet w in
  (sent (events run) = [] \/ sent (events run) = [frame]) /\
  (forall d, result run = Ret d -> sent (events run) = [frame]).
Proof.
  destruct comms as [c |]; cbn zeta.
  - destruct (communicate_writes_the_request_once c frame args quiet w)
      as [Hs Hr]. cbn zeta in Hs, Hr.
    split.
    + rewrite Hs. destruct (usable c w); auto.
    + intros d Hd. rewrite Hs, (Hr d Hd). reflexivity.
  - split; [now left | discriminate].
Qed.

(** One turn of the transfer loop, whatever the device does: one progress
    report, at most the chunk's frame written, and the turn returns only
    after writing it. *)
Lemma upgrade_chunk_any comms args content counter chunk w :
  let run := upgrade_chunk comms args content counter chunk w in
  let counter' := counter + Z.of_nat (length chunk) in
  progress (events run) = [(counter', Z.of_nat (length content))] /\
  (sent (events run) = [] \/ sent (events run) = [create_upgrade_data chunk]) /\
  (forall x, result run = Ret x ->
             x = counter' /\ sent (events run) = [create_upgrade_data chunk]).
Proof.
  intros run counter'. subst run. unfold upgrade_chunk. fold counter'.
  rewrite bind_emit. cbn [result final events fst snd].
  rewrite progress_cons, sent_cons.
  destruct (communicate_sent comms (create_upgrade_data chunk) args false w)
    as [Hs Hsr]. cbn zeta in Hs, Hsr.
  assert (Hp := communicate_progress comms (create_upgrade_data chunk) args false w).
  destruct (communicate comms (create_upgrade_data chunk) args false w)
    as [[[d | code | e] w1] cevs] eqn:Hrun;
    cbn [result final events fst snd] in *.
  - specialize (Hsr d eq_refl).
    rewrite (bind_ret_run _ _ _ _ _ _ Hrun). cbn [result final events fst snd].
    rewrite progress_app, sent_app, Hp, Hsr. cbn [app].
    unfold dict_get. destruct (d !! "status") as [status |].
    + rewrite bind_ret_l.
      destruct (py_eq_int status upgrade_continue);
        [| destruct (py_eq_int status upgrade_crc_error);
           [| destruct (py_eq_int status upgrade_erase_error);
              [| destruct (py_eq_int status upgrade_flash_error);
                 [| destruct (py_eq_int status upgrade_overflow_error);
                    [| destruct (py_eq_int status upgrade_success)]]]]];
        cbn; (split; [reflexivity |]); (split; [now right |]);
        intros x Hx; try discriminate Hx;
        injection Hx as <-; split; reflexivity.
    + rewrite bind_raise_l.
      cbn. split; [reflexivity |]. split; [now right | discriminate].
  - rewrite (bind_exit_run _ _ _ _ _ _ Hrun). cbn [result final events fst snd].
    rewrite Hp. split; [reflexivity |]. split; [exact Hs | discriminate].
  - rewrite (bind_raise_run _ _ _ _ _ _ Hrun). cbn [result final events fst snd].
    rewrite Hp. split; [reflexivity |]. split; [exact Hs | discriminate].
Qed.

Lemma upgrade_loop_any comms args content chunks :
  forall counter w,
    let run := upgrade_loop comms args content chunks counter w in
    sent (events run) `prefix_of` map create_upgrade_data chunks /\
    progress (events run)
      `prefix_of` map (fun x => (x, Z.of_nat (length content)))
                      (running counter chunks).
Proof.
  induction chunks as [| chunk chunks IH]; intros counter w; cbn zeta.
  - split; apply prefix_nil.
  - cbn [upgrade_loop map running].
    destruct (upgrade_chunk_any comms args content counter chunk w)
      as (Hp & Hs & Hr). cbn zeta in Hp, Hs, Hr.
    destruct (upgrade_chunk comms args content counter chunk w)
      as [[[x | code | e] w1] cevs] eqn:Hrun;
      cbn [result final events fst snd] in *.
    + destruct (Hr x eq_refl) as [-> Hsx].
      rewrite (bind_ret_run _ _ _ _ _ _ Hrun). cbn [result final events fst snd].
      rewrite sent_app, progress_app, Hsx, Hp.
      destruct (IH (counter + Z.of_nat (length chunk)) w1) as [IHs IHp].
      cbn zeta in IHs, IHp. cbn [app].
      split; apply prefix_cons; assumption.
    + rewrite (bind_exit_run _ _ _ _ _ _ Hrun). cbn [result final events fst snd].
      rewrite Hp. split.
      * destruct Hs as [-> | ->]; [apply prefix_nil |].
        apply prefix_cons, prefix_nil.
      * apply prefix_cons, prefix_nil.
    + rewrite (bind_raise_run _ _ _ _ _ _ Hrun). cbn [result final events fst snd].
      rewrite Hp. split.
      * destruct Hs as [-> | ->]; [apply prefix_nil |].
        apply prefix_cons, prefix_nil.
      * apply prefix_cons, prefix_nil.
Qed.

End every_upgrade.

Section upgrade_invariants.
Context `{Protocol} `{Uframe} `{Crc}.

(** X12. In every run of [run_upgrade], whatever the transport and the
    device do, the frames written are a prefix of the upgrade-start frame
    (chunk size 1024 and the CRC of the file) followed by the chunks of
    1024 bytes of the file in order, and the progress reports are a prefix
    of the running totals of these chunks: no chunk is written twice,
    skipped or taken out of order, and no other chunk size is used. *)
Theorem run_upgrade_writes_chunks_in_order comms content args w :
  let run := run_upgrade comms content args w in
  let chunks := chunk_from_file content 1024 in
  sent (events run)
    `prefix_of` (create_upgrade_start 1024 (calculate content)
                   :: map create_upgrade_data chunks) /\
  progress (events run)
    `prefix_of` map (fun x => (x, Z.of_nat (length content))) (running 0 chunks).
Proof.
  intros run chunks. subst run. unfold run_upgrade.
  destruct (negb (String.eqb (slice 6 8 (encode_hex content)) "20")
            && negb (force args)).
  { rewrite (bind_exit_run _ _ _ _ _ _ (fail_run _ w)).
    split; apply prefix_nil. }
  rewrite bind_skip. cbn zeta. rewrite generator_end_1024.
  set (frame := create_upgrade_start 1024 (calculate content)).
  destruct (communicate_sent comms frame args false w) as [Hs Hsr].
  cbn zeta in Hs, Hsr.
  assert (Hp := communicate_progress comms frame args false w).
  destruct (communicate comms frame args false w)
    as [[[d | code | e] w1] cevs] eqn:Hrun;
    cbn [result final events fst snd] in *.
  - specialize (Hsr d eq_refl).
    rewrite (bind_ret_run _ _ _ _ _ _ Hrun). cbn [result final events fst snd].
    rewrite sent_app, progress_app, Hsr, Hp. cbn [app].
    match goal with
    | |- context [events ?X] =>
        assert (HX : sent (events X) `prefix_of` map create_upgrade_data chunks /\
                     progress (events X)
                       `prefix_of` map (fun x => (x, Z.of_nat (length content)))
                                       (running 0 chunks))
    end.
    { unfold dict_get. destruct (d !! "status") as [status |].
      - rewrite bind_ret_l, bind_sys_exit. cbn [result final events fst snd].
        destruct (py_eq_int status upgrade_continue).
        + destruct (d !! "chunk_size") as [device_chunk_size |].
          * rewrite bind_ret_l.
            destruct (upgrade_loop_any comms args content chunks 0 w1)
              as [Hls Hlp]. cbn zeta in Hls, Hlp.
            destruct (negb (py_eq_int device_chunk_size 1024)).
            -- unfold print. rewrite bind_emit, bind_skip_r.
               cbn [result final events fst snd].
               rewrite sent_cons, progress_cons. split; assumption.
            -- rewrite bind_skip, bind_skip_r. split; assumption.
          * rewrite bind_raise_l. cbn. split; apply prefix_nil.
        + rewrite fail_run. cbn. split; apply prefix_nil.
      - rewrite bind_raise_l. cbn. split; apply prefix_nil. }
    destruct HX as [HXs HXp]. split; [now apply prefix_cons | exact HXp].
  - rewrite (bind_exit_run _ _ _ _ _ _ Hrun). cbn [result final events fst snd].
    rewrite Hp. split; [| apply prefix_nil].
    destruct Hs as [-> | ->]; [apply prefix_nil | apply prefix_cons, prefix_nil].
  - rewrite (bind_raise_run _ _ _ _ _ _ Hrun). cbn [result final events fst snd].
    rewrite Hp. split; [| apply prefix_nil].
    destruct Hs as [-> | ->]; [apply prefix_nil | apply prefix_cons, prefix_nil].
Qed.

(** X13. The device rejects the upgrade: when upgrade-start is answered
    with a status other than continue, the session prints that the device
    rejected the upgrade and exits with status 1; only the start frame was
    written and no progress was reported. *)
Theorem rejected_upgrade_sends_no_chunk c content args w r0 status hi lo :
  upgrade_protocol ->
  Forall is_byte content -> guard_passes content args ->
  usable c w = true ->
  result (comm_read c w) = Ret r0 ->
  is_reply cmd_upgrade_start [status; hi; lo] r0 ->
  status <> upgrade_continue ->
  let run := run_upgrade (Some c) content args w in
  result run = Exit 1 /\
  sent (events run) = [create_upgrade_start 1024 (calculate content)] /\
  progress (events run) = [] /\
  last (events run) = Some (PrintError (Lit "Device rejected firmware upgrade")).
Proof.
  intros Hp Hb Hg Hu Hr (Hne & res & b & rest & Hset & Hres & Hcmd) Hst run.
  assert (Hlen : (2 <= length (create_upgrade_start 1024 (calculate content)))%nat)
    by apply Hp.
  destruct (frame_command _ Hlen) as [command Hc].
  destruct (communicate_exchange c _ args false w r0 res _ command
              Hu Hr Hne Hset Hres Hc) as (Hres' & Hfin & Hsent & Hprog).
  cbn [app] in Hres'. rewrite (handle_upgrade_start _ _ _ _ _ _ _ _ Hp Hcmd) in Hres'.
  assert (Hrun : communicate (Some c)
                   (create_upgrade_start 1024 (calculate content)) args false w
                 = (Ret (<["chunk_size" := VInt (Z.lor (Z.shiftl hi 8) lo)]>
                           (<["status" := VInt status]> ∅)),
                    final (comm_read c w),
                    events (communicate (Some c)
                              (create_upgrade_start 1024 (calculate content))
                              args false w))).
  { rewrite (run_eta (communicate _ _ _ _ _)) at 1. now rewrite Hres', Hfin. }
  set (cevs := events (communicate (Some c)
                 (create_upgrade_start 1024 (calculate content)) args false w)) in *.
  assert (Heq : run_upgrade (Some c) content args w
                = (Exit 1, final (comm_read c w),
                   cevs ++ [PrintError (Lit "Device rejected firmware upgrade")])).
  { unfold run_upgrade. rewrite (guard_passes_test content args Hb Hg).
    rewrite bind_skip. cbn zeta.
    rewrite (bind_ret_run _ _ _ _ _ _ Hrun).
    rewrite (dict_get_lookup _ "status" (VInt status))
      by (rewrite lookup_insert_ne by discriminate; apply lookup_insert_eq).
    rewrite bind_ret_l. cbn [py_eq_int].
    destruct (Z.eqb_spec status upgrade_continue) as [E | _]; [contradiction |].
    rewrite bind_sys_exit, fail_run. reflexivity. }
  subst run. rewrite Heq. cbn [result final events fst snd].
  rewrite sent_app, progress_app, Hsent, Hprog, last_snoc.
  repeat split.
Qed.

(** X14. The session needs no success answer. When upgrade-start is
    answered with continue and every chunk with continue or success, the
    session writes every chunk, reports the running totals and exits with
    status 0: also when no answer is success, and for an empty file sent
    with the force option, which has no chunk and no progress report. *)
Theorem transfer_completes c content args w r0 hi lo rs :
  upgrade_protocol -> upgrade_statuses ->
  Forall is_byte content -> guard_passes content args ->
  usable c w = true ->
  answers c w (r0 :: rs) ->
  is_reply cmd_upgrade_start [upgrade_continue; hi; lo] r0 ->
  Forall (fun r => exists status,
              going_status status /\ is_reply cmd_upgrade_data [status] r) rs ->
  length rs = length (chunk_from_file content 1024) ->
  let run := run_upgrade (Some c) content args w in
  result run = Exit EX_OK /\
  sent (events run)
  = create_upgrade_start 1024 (calculate content)
      :: map create_upgrade_data (chunk_from_file content 1024) /\
  progress (events run)
  = map (fun x => (x, Z.of_nat (length content)))
        (running 0 (chunk_from_file content 1024)).
Proof.
  intros Hp Hst Hb Hg Hu [Hr0 Hans] Hstart Hok Hlen run.
  destruct (run_upgrade_started c content args w r0 hi lo Hp Hb Hg Hu Hr0 Hstart)
    as (evs0 & Hs0 & Hp0 & Hres & Hevs).
  cbn zeta in Hres, Hevs.
  set (w1 := final (comm_read c w)) in *.
  assert (Hu1 : usable c w1 = true) by (subst w1; now rewrite usable_after_read).
  destruct (upgrade_loop_complete c args content rs
              (chunk_from_file content 1024) w1 Hp Hst Hu1 Hans Hok Hlen)
    as (Hlr & Hls & Hlp).
  subst run. rewrite Hres, Hevs, Hlr.
  rewrite sent_app, progress_app, Hs0, Hp0, Hls, Hlp. cbn [app].
  repeat split.
Qed.

End upgrade_invariants.

Lemma rejected_upgrade_witness :
  let run := sample_run fw4 [start_reply 2 1024] in
  result run = Exit 1 /\
  sent (events run)
  = [@create_upgrade_start sample_protocol 1024 (@calculate sample_crc fw4)] /\
  progress (events run) = [] /\
  last (events run) = Some (PrintError (Lit "Device rejected firmware upgrade")).
Proof.
  apply (@rejected_upgrade_sends_no_chunk sample_protocol sample_uframe sample_crc
           sample_udp fw4 sample_args (udp_device (map Some [start_reply 2 1024]))
           (start_reply 2 1024) 2 4 0).
  - exact sample_upgrade_protocol.
  - exact fw4_bytes.
  - left. reflexivity.
  - reflexivity.
  - reflexivity.
  - split; [discriminate |].
    exists 0, 137, []. split; [reflexivity | split; [lia | reflexivity]].
  - discriminate.
Defined.

Lemma transfer_completes_witness :
  let run := sample_run fw1025 [start_reply 0 1024; data_reply 0; data_reply 0] in
  result run = Exit EX_OK /\
  sent (events run)
  = @create_upgrade_start sample_protocol 1024 (@calculate sample_crc fw1025)
      :: map (@create_upgrade_data sample_protocol) (chunk_from_file fw1025 1024) /\
  progress (events run)
  = map (fun x => (x, Z.of_nat (length fw1025)))
        (running 0 (chunk_from_file fw1025 1024)).
Proof.
  apply (@transfer_completes sample_protocol sample_uframe sample_crc
           sample_udp fw1025 sample_args
           (udp_device (map Some [start_reply 0 1024; data_reply 0; data_reply 0]))
           (start_reply 0 1024) 4 0 [data_reply 0; data_reply 0]).
  - exact sample_upgrade_protocol.
  - exact sample_upgrade_statuses.
  - exact fw1025_bytes.
  - left. reflexivity.
  - reflexivity.
  - repeat split.
  - apply (sample_start_reply 1024). lia.
  - repeat constructor; (exists 0; split; [left; reflexivity | apply sample_data_reply]).
  - rewrite fw1025_chunks. reflexivity.
Defined.

(** ** More on discovery *)

Lemma reported_app evs1 evs2 : reported (evs1 ++ evs2) = reported evs1 ++ reported evs2.
Proof. apply omap_app. Qed.

Lemma record_service_count source s (d : gmap string bool) :
  let run := record_service source s d in
  (length (reported (events run)) + size d)%nat = size (final run).
Proof.
  cbn zeta. rewrite record_service_run.
  destruct (d !! discovery_key source s) as [v |] eqn:Hd; [reflexivity |].
  destruct (String.eqb (service_name s) "opendps"); [| reflexivity].
  cbn [final events fst snd]. rewrite map_size_insert_None by exact Hd.
  reflexivity.
Qed.

Lemma record_services_count source ss (d : gmap string bool) :
  let run := record_services source ss d in
  (length (reported (events run)) + size d)%nat = size (final run).
Proof.
  revert d. induction ss as [| s ss IH]; intros d; [reflexivity |].
  cbn zeta. cbn [record_services].
  destruct (record_service_dom source s d) as [Hr _].
  rewrite (bind_ret_run _ _ d tt (final (record_service source s d))
             (events (record_service source s d)))
    by (rewrite (run_eta (record_service _ _ _)) at 1; now rewrite Hr).
  cbn [result final events fst snd].
  rewrite reported_app, length_app, <- (IH (final (record_service source s d))).
  rewrite <- (record_service_count source s d). cbn zeta. lia.
Qed.

Section discovery_more.
Context `{Uhej}.

Lemma uhej_worker_step_count r (d : gmap string bool) :
  let run := uhej_worker_step r d in
  (length (reported (events run)) + size d)%nat = size (final run).
Proof.
  destruct r as [data addr src_port |]; cbn [uhej_worker_step]; [| reflexivity].
  destruct (decode_frame data) as [f |]; [| reflexivity].
  destruct (ANNOUNCE =? frame_type f); [| reflexivity].
  apply record_services_count.
Qed.

(** X15. Each record is reported once. Over any datagrams, the listener
    does not fail, and the number of addresses it prints is the number of
    records it adds: the count that the scan reports at the end is the
    number of records at the start plus the number of addresses
    printed. *)
Theorem one_line_per_record (rx : list received) (d : gmap string bool) :
  let run := uhej_worker_thread rx d in
  result run = Ret tt /\
  num_found (final run) = (length (reported (events run)) + num_found d)%nat.
Proof.
  cbn zeta. split; [apply uhej_worker_thread_dom |].
  unfold num_found. revert d. induction rx as [| r rx IH]; intros d;
    [reflexivity |].
  cbn [uhej_worker_thread].
  destruct (uhej_worker_step_dom r d) as [Hr _].
  rewrite (bind_ret_run _ _ d tt (final (uhej_worker_step r d))
             (events (uhej_worker_step r d)))
    by (rewrite (run_eta (uhej_worker_step _ _)) at 1; now rewrite Hr).
  cbn [result final events fst snd].
  rewrite reported_app, length_app, (IH (final (uhej_worker_step r d))).
  rewrite <- (uhej_worker_step_count r d). cbn zeta. lia.
Qed.

(** X16. Foreign traffic is dropped silently. A datagram that does not
    decode, a frame that is not an announce, and an announce none of whose
    services is named "opendps" leave the records as they are and print
    nothing. *)
Theorem foreign_datagram_is_ignored data addr src_port (d : gmap string bool) :
  decode_frame data = None \/
  (exists f, decode_frame data = Some f /\
             (frame_type f <> ANNOUNCE \/
              Forall (fun s => service_name s <> "opendps") (services f))) ->
  uhej_worker_step (Datagram data addr src_port) d = (Ret tt, d, []).
Proof.
  intros [Hnone | (f & Hf & Hcase)]; cbn [uhej_worker_step].
  - now rewrite Hnone.
  - rewrite Hf. destruct (Z.eqb_spec ANNOUNCE (frame_type f)) as [E | N];
      [| reflexivity].
    destruct Hcase as [Hne | Hother]; [now symmetry in E |].
    apply record_services_known. clear -Hother.
    induction (services f) as [| s ss IH].
    + rewrite opendps_keys_nil. apply empty_subseteq.
    + apply Forall_cons in Hother as [Hs Hss].
      rewrite opendps_keys_cons.
      destruct (decide (service_name s = "opendps")); [contradiction |].
      rewrite (left_id_L ∅ (∪)). now apply IH.
Qed.

End discovery_more.

Lemma one_line_per_record_witness :
  let dg := Datagram [0; 5005; 0; 1] "10.0.0.2" 4321 in
  let run := @uhej_worker_thread sample_uhej [dg; SocketError; dg] ∅ in
  result run = Ret tt /\
  num_found (final run) = (length (reported (events run)) + num_found ∅)%nat.
Proof.
  apply (@one_line_per_record sample_uhej
           [Datagram [0; 5005; 0; 1] "10.0.0.2" 4321; SocketError;
            Datagram [0; 5005; 0; 1] "10.0.0.2" 4321] ∅).
Defined.

Lemma foreign_datagram_witness :
  @uhej_worker_step sample_uhej (Datagram [0; 5005; 0; 2] "10.0.0.3" 4321) ∅
  = (Ret tt, ∅, []) /\
  @uhej_worker_step sample_uhej (Datagram [7] "10.0.0.3" 4321) ∅
  = (Ret tt, ∅, []).
Proof.
  split.
  - apply (@foreign_datagram_is_ignored sample_uhej).
    right. eexists. split; [reflexivity |]. right.
    repeat constructor. discriminate.
  - apply (@foreign_datagram_is_ignored sample_uhej). left. reflexivity.
Defined.

(** ** Keys of the records *)

Lemma colon_free_app a b :
  colon_free (a +:+ b) = colon_free a && colon_free b.
Proof.
  induction a as [| c a IH]; [reflexivity |].
  change (String c a +:+ b) with (String c (a +:+ b)).
  cbn [colon_free]. rewrite IH.
  now rewrite andb_assoc.
Qed.

Lemma colon_free_pretty_N_go x s :
  colon_free s = true -> colon_free (pretty_N_go x s) = true.
Proof.
  revert s. induction (N.lt_wf_0 x) as [x _ IH]; intros s Hs.
  assert (x = 0 \/ 0 < x)%N as [-> | Hpos] by lia.
  - now rewrite pretty_N_go_0.
  - rewrite pretty_N_go_step by exact Hpos. apply IH.
    + now apply N.div_lt.
    + cbn [colon_free]. rewrite Hs, andb_true_r.
      unfold pretty_N_char. repeat case_match; reflexivity.
Qed.

Lemma colon_free_pretty_N (x : N) : colon_free (pretty x) = true.
Proof.
  unfold pretty, pretty_N. destruct (decide (x = 0%N)); [reflexivity |].
  now apply colon_free_pretty_N_go.
Qed.

Lemma colon_free_pretty_Z (z : Z) : colon_free (pretty z) = true.
Proof.
  destruct z as [| p | p]; unfold pretty, pretty_Z.
  - reflexivity.
  - apply (colon_free_pretty_N (Npos p)).
  - rewrite colon_free_app. apply (colon_free_pretty_N (Npos p)).
Qed.

(** Two texts without colon, each followed by a colon and more, are cut
    at the same place. *)
Lemma colon_split a b x y :
  colon_free a = true -> colon_free b = true ->
  a +:+ String ":" x = b +:+ String ":" y -> a = b /\ x = y.
Proof.
  revert b. induction a as [| c a IH]; intros [| c' b] Ha Hb Heq.
  - change (String ":" x = String ":" y) in Heq. injection Heq as ->. auto.
  - change (String ":" x = String c' (b +:+ String ":" y)) in Heq.
    injection Heq as <- _. cbn in Hb. discriminate.
  - change (String c (a +:+ String ":" x) = String ":" y) in Heq.
    injection Heq as -> _. cbn in Ha. discriminate.
  - change (String c (a +:+ String ":" x) = String c' (b +:+ String ":" y)) in Heq.
    injection Heq as -> Heq.
    cbn [colon_free] in Ha, Hb.
    apply andb_true_iff in Ha as [_ Ha]. apply andb_true_iff in Hb as [_ Hb].
    destruct (IH b Ha Hb Heq) as [-> ->]. auto.
Qed.

(** X17. The key of a record tells the triple. For source addresses that
    hold no colon, two services get the same key only if the source
    address, the port and the type are the same: announces that differ in
    one of the three get records of their own. *)
Theorem discovery_key_inj source1 source2 s1 s2 :
  colon_free source1 = true -> colon_free source2 = true ->
  discovery_key source1 s1 = discovery_key source2 s2 ->
  source1 = source2 /\ port s1 = port s2 /\ type s1 = type s2.
Proof.
  intros H1 H2 Heq. unfold discovery_key in Heq.
  change (source1 +:+ String ":" (pretty (port s1) +:+ String ":" (pretty (type s1)))
          = source2 +:+ String ":" (pretty (port s2) +:+ String ":" (pretty (type s2))))
    in Heq.
  apply colon_split in Heq as [-> Heq]; [| assumption..].
  apply colon_split in Heq as [Hp Ht]; [| apply colon_free_pretty_Z..].
  apply (inj pretty) in Hp, Ht. auto.
Qed.

Lemma discovery_key_inj_witness :
  let s := {| port := 5005; type := 0; service_name := "opendps" |} in
  "10.0.0.2" = "10.0.0.2" /\ port s = port s /\ type s = type s.
Proof.
  intros s.
  apply (discovery_key_inj "10.0.0.2" "10.0.0.2" s s); reflexivity.
Defined.

(** ** A device that stops answering *)

Section silent_device.
Context `{Protocol} `{Uframe} `{Crc}.

(** X18. The device stops answering in the middle of a transfer. When
    upgrade-start is answered with continue, the first chunks with
    continue or success, and the read that follows the next chunk yields
    nothing, the session ends with the timeout error and exit status 1,
    having written the chunks up to and including the one left without
    answer; the chunk is not written again. *)
Theorem timeout_ends_transfer c content args w r0 hi lo oks :
  upgrade_protocol -> upgrade_statuses ->
  Forall is_byte content -> guard_passes content args ->
  usable c w = true ->
  answers c w (r0 :: oks ++ [[]]) ->
  is_reply cmd_upgrade_start [upgrade_continue; hi; lo] r0 ->
  Forall (fun r => exists s,
              going_status s /\ is_reply cmd_upgrade_data [s] r) oks ->
  (length oks < length (chunk_from_file content 1024))%nat ->
  let run := run_upgrade (Some c) content args w in
  result run = Exit 1 /\
  sent (events run)
  = create_upgrade_start 1024 (calculate content)
      :: map create_upgrade_data
           (take (S (length oks)) (chunk_from_file content 1024)) /\
  last (events run)
  = Some (PrintError (Format "timeout talking to device %s" [VStr (_if_name c)])).
Proof.
  intros Hp Hst Hb Hg Hu [Hr0 Hans] Hstart Hok Hlen run.
  destruct (run_upgrade_started c content args w r0 hi lo Hp Hb Hg Hu Hr0 Hstart)
    as (evs0 & Hs0 & _ & Hres & Hevs).
  cbn zeta in Hres, Hevs.
  set (w1 := final (comm_read c w)) in *.
  assert (Hu1 : usable c w1 = true) by (subst w1; now rewrite usable_after_read).
  set (chunks := chunk_from_file content 1024) in *.
  destruct (upgrade_loop_going c args content oks Hp Hst chunks [[]] w1 0
              Hu1 Hans Hok ltac:(lia))
    as (w' & evs & Hu' & [Hrf _] & Hsent & _ & Hloop).
  cbn zeta in Hloop.
  destruct (lookup_lt_is_Some_2 chunks (length oks) Hlen) as [chunk Hchunk].
  rewrite (drop_S _ _ _ Hchunk) in Hloop. cbn [upgrade_loop] in Hloop.
  destruct (timeout_is_fatal c (create_upgrade_data chunk) args false w' Hu' Hrf)
    as (Htr & _ & Hts & Htl).
  cbn zeta in Htr, Hts, Htl.
  match type of Hloop with
  | context [bind (upgrade_chunk ?a ?b ?ct ?n ?ch) ?k w'] =>
      assert (Hchunk_run :
                upgrade_chunk a b ct n ch w'
                = (Exit 1,
                   final (communicate (Some c) (create_upgrade_data chunk) args false w'),
                   StdoutWrite (Progress (n + Z.of_nat (length chunk))
                                  (Z.of_nat (length content)))
                     :: events (communicate (Some c) (create_upgrade_data chunk)
                                  args false w')));
      [ unfold upgrade_chunk; rewrite bind_emit;
        rewrite (bind_exit_run (communicate (Some c) (create_upgrade_data chunk)
                                  args false) _ w' 1
                   (final (communicate (Some c) (create_upgrade_data chunk)
                             args false w'))
                   (events (communicate (Some c) (create_upgrade_data chunk)
                              args false w')))
          by (rewrite (run_eta (communicate _ _ _ _ _)) at 1; now rewrite Htr);
        reflexivity
      | rewrite (bind_exit_run _ k w' 1 _ _ Hchunk_run) in Hloop ]
  end.
  cbn [result final events fst snd] in Hloop.
  subst run. rewrite Hres, Hevs, Hloop. cbn [result final events fst snd].
  split; [reflexivity | split].
  - rewrite !sent_app, sent_cons, Hs0, Hsent, Hts. cbn [app]. f_equal.
    rewrite (take_S_r _ _ _ Hchunk), map_app. reflexivity.
  - match goal with
    | |- last (evs0 ++ evs ++ ?e :: ?l) = _ =>
        change (evs0 ++ evs ++ e :: l) with (evs0 ++ evs ++ [e] ++ l)
    end.
    rewrite !last_app, Htl. reflexivity.
Qed.

End silent_device.

Lemma timeout_ends_transfer_witness :
  let run := sample_run fw1025 [start_reply 0 1024; data_reply 0] in
  result run = Exit 1 /\
  sent (events run)
  = @create_upgrade_start sample_protocol 1024 (@calculate sample_crc fw1025)
      :: map (@create_upgrade_data sample_protocol)
           (take 2 (chunk_from_file fw1025 1024)) /\
  last (events run)
  = Some (PrintError (Format "timeout talking to device %s"
                        [VStr (_if_name sample_udp)])).
Proof.
  apply (@timeout_ends_transfer sample_protocol sample_uframe sample_crc
           sample_udp fw1025 sample_args
           (udp_device (map Some [start_reply 0 1024; data_reply 0]))
           (start_reply 0 1024) 4 0 [data_reply 0]).
  - exact sample_upgrade_protocol.
  - exact sample_upgrade_statuses.
  - exact fw1025_bytes.
  - left. reflexivity.
  - reflexivity.
  - repeat split.
  - apply (sample_start_reply 1024). lia.
  - constructor; [| constructor].
    exists 0. split; [left; reflexivity | apply sample_data_reply].
  - rewrite fw1025_chunks. cbn. lia.
Defined.

(** ** The transfer that ends with success *)

Lemma bind_events_emits {S A B} (P : event -> Prop) (m : M S A)
  (k : A -> M S B) s :
  (forall a, emits_only P (k a)) ->
  exists tail, Forall P tail /\ events (bind m k s) = events (m s) ++ tail.
Proof.
  intros Hk. unfold bind. destruct (m s) as [[[a | c | e] s1] evs]; cbn.
  - specialize (Hk a s1). destruct (k a s1) as [[r s2] evs'].
    exists evs'. split; [exact Hk | reflexivity].
  - exists []. split; [apply Forall_nil_2 | now rewrite app_nil_r].
  - exists []. split; [apply Forall_nil_2 | now rewrite app_nil_r].
Qed.

Lemma written_after_prints raw post tl :
  Forall is_print post -> written_after raw (post ++ tl) = written_after raw tl.
Proof.
  induction 1 as [| e post He _ IH]; [reflexivity |].
  destruct e; try contradiction; exact IH.
Qed.

(** The events of one exchange, then others: what is written after the
    first read of [raw]. *)
Lemma written_after_exchange raw pre n r post tl :
  Forall (fun e => forall n' d, e <> EvRead n' d) pre ->
  Forall is_print post ->
  written_after raw (pre ++ EvRead n r :: post ++ tl)
  = if bool_decide (r = raw) then sent tl else written_after raw tl.
Proof.
  intros Hpre Hpost. induction Hpre as [| e pre He _ IH].
  - cbn [app written_after]. destruct (bool_decide (r = raw)).
    + now rewrite sent_app, (prints_sent _ Hpost).
    + now apply written_after_prints.
  - destruct e; try exact IH. now contradiction (He if_name data).
Qed.

Section success_last.
Context `{Protocol} `{Uframe} `{Crc}.

Lemma comm_read_event c w r :
  usable c w = true ->
  result (comm_read c w) = Ret r ->
  comm_read c w = (Ret r, final (comm_read c w), [EvRead (name c) r]).
Proof.
  unfold usable, comm_read. destruct (class c); [discriminate | |]; intros _.
  - unfold bind, get. cbn. destruct (tty_read (serial_rx w)) as [data rest].
    cbn. now intros [= ->].
  - unfold bind, get. cbn. destruct (udp_read (udp_rx w)) as [data rest].
    cbn. now intros [= ->].
Qed.

(** The events of an exchange over a usable transport: one read, nothing
    but lines after it. *)
Lemma communicate_events c frame args quiet w r :
  usable c w = true ->
  result (comm_read c w) = Ret r ->
  exists pre post,
    Forall (fun e => forall n d, e <> EvRead n d) pre /\
    Forall is_print post /\
    events (communicate (Some c) frame args quiet w)
    = pre ++ EvRead (name c) r :: post.
Proof.
  intros Hu Hr.
  destruct (communicate_usable c frame args quiet w r _ _ Hu
              (comm_read_event c w r Hu Hr)) as (pre & Hpre & Hrun).
  cbn zeta in Hrun. rewrite Hrun. cbn [events snd].
  exists (EvOpen (name c) :: pre ++ [EvWrite (name c) frame]),
    (events (handle_read c frame args quiet r (final (comm_read c w)))).
  split; [| split].
  - apply Forall_cons. split; [discriminate |].
    apply Forall_app. split.
    + eapply Forall_impl; [exact Hpre |]. intros e [t ->]. discriminate.
    + apply Forall_cons. split; [discriminate | apply Forall_nil_2].
  - apply (emits_handle_read is_print); intros; exact I.
  - cbn [app]. now rewrite <- app_assoc.
Qed.

(** The events of one turn of the loop: one read, nothing but lines after
    it. *)
Lemma upgrade_chunk_events c args content counter chunk w r :
  usable c w = true ->
  result (comm_read c w) = Ret r ->
  exists pre post,
    Forall (fun e => forall n d, e <> EvRead n d) pre /\
    Forall is_print post /\
    events (upgrade_chunk (Some c) args content counter chunk w)
    = pre ++ EvRead (name c) r :: post.
Proof.
  intros Hu Hr. unfold upgrade_chunk. rewrite bind_emit.
  cbn [events snd].
  match goal with
  | |- context [bind (communicate ?a ?b ?d ?e) ?k w] =>
      destruct (bind_events_emits is_print (communicate a b d e) k w)
        as (tail & Htail & ->)
  end.
  { intros d. repeat emits_step; exact I. }
  destruct (communicate_events c (create_upgrade_data chunk) args false w r Hu Hr)
    as (pre & post & Hpre & Hpost & ->).
  exists (StdoutWrite (Progress (counter + Z.of_nat (length chunk))
                         (Z.of_nat (length content))) :: pre), (post ++ tail).
  split; [| split].
  - apply Forall_cons. split; [discriminate | exact Hpre].
  - apply Forall_app. split; assumption.
  - cbn [app]. now rewrite <- app_assoc.
Qed.

(** When the last chunk is answered with [raw] and the answers before it
    are other frames, nothing of the loop is written after [raw] is
    read. *)
Lemma upgrade_loop_stops c args content raw oks :
  upgrade_protocol -> upgrade_statuses ->
  forall chunks w counter tl,
    usable c w = true ->
    answers c w (oks ++ [raw]) ->
    Forall (fun r => r <> raw /\
                     exists status,
                       going_status status /\ is_reply cmd_upgrade_data [status] r)
           oks ->
    length chunks = S (length oks) ->
    written_after raw
      (events (upgrade_loop (Some c) args content chunks counter w) ++ tl)
    = sent tl.
Proof.
  intros Hp Hst. induction oks as [| r oks IH];
    intros chunks w counter tl Hu Hans Hoks Hlen.
  - destruct chunks as [| chunk [| ? ?]]; try discriminate Hlen.
    destruct Hans as [Hr _]. cbn [upgrade_loop].
    destruct (bind_events_emits is_print
                (upgrade_chunk (Some c) args content counter chunk)
                (fun _ => skip) w)
      as (tail & Htail & ->).
    { intros a. apply emits_ret. }
    destruct (upgrade_chunk_events c args content counter chunk w raw Hu Hr)
      as (pre & post & Hpre & Hpost & ->).
    rewrite <- !app_assoc. cbn [app]. rewrite app_assoc.
    rewrite written_after_exchange
      by (assumption || (apply Forall_app; split; assumption)).
    now rewrite bool_decide_eq_true_2.
  - destruct chunks as [| chunk chunks]; [discriminate Hlen |].
    destruct Hans as [Hr Hans].
    apply Forall_cons in Hoks as [[Hne (status & Hgo & Hrep)] Hoks].
    destruct (upgrade_chunk_run c args content counter chunk w r status
                Hp Hu Hr Hrep) as (Hfin & _ & _ & Hret & _).
    cbn zeta in Hfin, Hret. specialize (Hret Hst Hgo).
    cbn [upgrade_loop].
    rewrite (bind_ret_run _ _ _ _ _ _
               (eq_trans (run_eta _)
                  (f_equal2 (fun a b => (a, b, _)) Hret Hfin))).
    cbn [events snd].
    destruct (upgrade_chunk_events c args content counter chunk w r Hu Hr)
      as (pre & post & Hpre & Hpost & ->).
    rewrite <- !app_assoc. cbn [app].
    rewrite written_after_exchange by assumption.
    rewrite bool_decide_eq_false_2 by exact Hne.
    apply IH.
    + now rewrite usable_after_read.
    + exact Hans.
    + exact Hoks.
    + cbn in Hlen. lia.
Qed.

(** Two frames that decode to different fields are different. *)
Lemma is_reply_differs cmd1 cmd2 status1 status2 fields1 fields2 r1 r2 :
  is_reply cmd1 (status1 :: fields1) r1 ->
  is_reply cmd2 (status2 :: fields2) r2 ->
  status1 <> status2 -> r1 <> r2.
Proof.
  intros (_ & res1 & b1 & rest1 & Hset1 & _) (_ & res2 & b2 & rest2 & Hset2 & _)
    Hne ->.
  rewrite Hset1 in Hset2. now injection Hset2.
Qed.

(** C3. Upgrade-start is answered with continue and the upgrade-data
    commands with continue but for the last, answered with success, one
    answer a chunk: the session exits with [EX_OK] (it has succeeded),
    every chunk of the file has been written, in order, the last progress
    report has the bytes sent equal to the size of the file (100%), and
    nothing is written once the success answer is read: sending stops
    there. The status codes are taken to be distinct. *)
Theorem transfer_with_one_success c content args w r0 hi lo oks rsucc :
  upgrade_protocol -> upgrade_statuses ->
  upgrade_success <> upgrade_continue ->
  Forall is_byte content -> guard_passes content args ->
  usable c w = true ->
  answers c w (r0 :: oks ++ [rsucc]) ->
  is_reply cmd_upgrade_start [upgrade_continue; hi; lo] r0 ->
  Forall (is_reply cmd_upgrade_data [upgrade_continue]) oks ->
  is_reply cmd_upgrade_data [upgrade_success] rsucc ->
  length (oks ++ [rsucc]) = length (chunk_from_file content 1024) ->
  let run := run_upgrade (Some c) content args w in
  result run = Exit EX_OK /\
  sent (events run)
  = create_upgrade_start 1024 (calculate content)
      :: map create_upgrade_data (chunk_from_file content 1024) /\
  last (progress (events run))
  = Some (Z.of_nat (length content), Z.of_nat (length content)) /\
  written_after rsucc (events run) = [].
Proof.
  intros Hp Hst Hsc Hb Hg Hu Hans Hstart Hoks Hsucc Hlen run.
  assert (H3 : result run = Exit EX_OK /\
               sent (events run)
               = create_upgrade_start 1024 (calculate content)
                   :: map create_upgrade_data (chunk_from_file content 1024) /\
               last (progress (events run))
               = Some (Z.of_nat (length content), Z.of_nat (length content))).
  { apply (transfer_with_a_success c content args w r0 hi lo (oks ++ [rsucc])
             (length oks) 0 Hp Hst Hb Hg Hu Hans Hstart); [| exact Hlen].
    apply Forall2_app.
    - clear -Hoks. induction Hoks as [| r oks Hr _ IH]; cbn [length replicate].
      + constructor.
      + constructor; assumption.
    - constructor; [exact Hsucc | constructor]. }
  destruct H3 as (Hres & Hsent & Hprog).
  repeat (split; [assumption |]).
  destruct Hans as [Hr0 Hans].
  destruct (run_upgrade_start_run c content args w r0 hi lo Hp Hb Hg Hu Hr0 Hstart)
    as (_ & _ & pre & Hpre & Heq).
  subst run. rewrite Heq. cbn [events snd].
  destruct (communicate_events c (create_upgrade_start 1024 (calculate content))
              args false w r0 Hu Hr0) as (pre0 & post0 & Hpre0 & Hpost0 & ->).
  rewrite <- !app_assoc. cbn [app]. rewrite (app_assoc post0).
  rewrite written_after_exchange
    by (assumption || (apply Forall_app; split; assumption)).
  rewrite bool_decide_eq_false_2
    by (apply (is_reply_differs _ _ _ _ _ _ _ _ Hstart Hsucc); congruence).
  rewrite <- (app_nil_r (events _)).
  rewrite (upgrade_loop_stops c args content rsucc oks Hp Hst); [reflexivity | ..].
  - now rewrite usable_after_read.
  - exact Hans.
  - eapply Forall_impl; [exact Hoks |]. intros r Hr. split.
    + apply (is_reply_differs _ _ _ _ _ _ _ _ Hr Hsucc). congruence.
    + exists upgrade_continue. split; [now left | exact Hr].
  - rewrite <- Hlen, length_app. cbn. lia.
Qed.

End success_last.

Lemma transfer_with_one_success_witness :
  let run := sample_run fw1025 [start_reply 0 1024; data_reply 0; data_reply 16] in
  result run = Exit EX_OK /\
  sent (events run)
  = @create_upgrade_start sample_protocol 1024 (@calculate sample_crc fw1025)
      :: map (@create_upgrade_data sample_protocol) (chunk_from_file fw1025 1024) /\
  last (progress (events run)) = Some (1025, 1025) /\
  written_after (data_reply 16) (events run) = [].
Proof.
  apply (@transfer_with_one_success sample_protocol sample_uframe sample_crc
           sample_udp fw1025 sample_args
           (udp_device (map Some [start_reply 0 1024; data_reply 0; data_reply 16]))
           (start_reply 0 1024) 4 0 [data_reply 0] (data_reply 16)).
  - exact sample_upgrade_protocol.
  - exact sample_upgrade_statuses.
  - discriminate.
  - exact fw1025_bytes.
  - left. reflexivity.
  - reflexivity.
  - repeat split.
  - apply (sample_start_reply 1024). lia.
  - repeat constructor; apply sample_data_reply.
  - apply sample_data_reply.
  - rewrite fw1025_chunks. reflexivity.
Defined.

(** ** Names of prefixes *)

(** X19. Distinct prefixes have distinct names: [prefix_name] is
    injective, the names of the table and the fallback texts included. *)
Theorem prefix_name_inj (p q : Z) : prefix_name p = prefix_name q -> p = q.
Proof.
  unfold prefix_name.
  assert (He : forall z : Z, "e" +:+ pretty z = String "e" (pretty z))
    by reflexivity.
  rewrite !He.
  repeat match goal with
         | |- context [?a =? ?b] => destruct (Z.eqb_spec a b)
         end;
    intros Heq; try congruence; try discriminate Heq.
  injection Heq as Heq. now apply (inj pretty) in Heq.
Qed.

Lemma prefix_name_inj_witness : (-3) = (-3).
Proof. apply (prefix_name_inj (-3) (-3)). reflexivity. Defined.

(** ** The verbose option *)

Section verbose_option.
Context `{Protocol} `{Uframe}.




End verbose_option.

(** ** The list of functions *)

Lemma cstr_text s k :
  nul_free s = true -> cstr (text_bytes s ++ 0 :: k) = (s, S (String.length s)).
Proof.
  induction s as [| c s IH]; intros Hs; [reflexivity |].
  cbn [nul_free] in Hs. apply andb_true_iff in Hs as [Hc Hs].
  cbn [text_bytes app cstr String.length].
  assert (Hnz : (Z.of_nat (nat_of_ascii c) =? 0) = false).
  { apply Z.eqb_neq. intros E.
    assert (E' : nat_of_ascii c = 0%nat) by lia.
    assert (Hz : c = Ascii.zero).
    { rewrite <- (ascii_nat_embedding c), E'. reflexivity. }
    rewrite Hz in Hc. discriminate. }
  rewrite Hnz, (IH Hs), Nat2Z.id, ascii_nat_embedding. reflexivity.
Qed.

Lemma length_text_bytes s : length (text_bytes s) = String.length s.
Proof. induction s as [| c s IH]; [reflexivity |]. cbn. now rewrite IH. Qed.

Section functions_list.
Context `{Protocol}.

(** The loop of the list-functions response over a payload that holds the
    names, each with its terminator, and then an empty name. *)
Lemma unpack_functions_names names :
  forall fuel pre junk functions (f : uFrame),
    Forall is_name names ->
    get_frame f = pre ++ concat (map cstr_bytes names) ++ 0 :: junk ->
    unpack_pos f = length pre ->
    (length names < fuel)%nat ->
    result ((let! name := unpack_cstr in
             unpack_functions fuel name functions) f)
    = Ret (functions ++ names) /\
    events ((let! name := unpack_cstr in
             unpack_functions fuel name functions) f) = [].
Proof.
  induction names as [| s names IH];
    intros fuel pre junk functions f Hnames Hf Hpos Hfuel.
  - destruct fuel as [| n]; [cbn in Hfuel; lia |].
    assert (Hc : unpack_cstr f = (Ret EmptyString, advance 1 f, [])).
    { unfold unpack_cstr. rewrite Hf, Hpos, drop_app_length. reflexivity. }
    rewrite (bind_ret_run _ _ _ _ _ _ Hc). cbn. now rewrite app_nil_r.
  - apply Forall_cons in Hnames as [[Hne Hnul] Hnames].
    destruct fuel as [| n]; [cbn in Hfuel; lia |]. cbn in Hfuel.
    assert (Hc : unpack_cstr f = (Ret s, advance (S (String.length s)) f, [])).
    { unfold unpack_cstr. rewrite Hf, Hpos, drop_app_length.
      cbn [map concat]. unfold cstr_bytes at 1.
      rewrite <- !app_assoc. cbn [app]. now rewrite (cstr_text s _ Hnul). }
    rewrite (bind_ret_run _ _ _ _ _ _ Hc). cbn [unpack_functions].
    destruct (String.eqb_spec s "") as [E | _]; [contradiction |].
    destruct (IH n (pre ++ cstr_bytes s) junk (functions ++ [s])
                (advance (S (String.length s)) f) Hnames) as [Hr He].
    + cbn [get_frame advance]. rewrite Hf. cbn [map concat].
      now rewrite <- !app_assoc.
    + cbn [unpack_pos advance]. rewrite Hpos. unfold cstr_bytes.
      rewrite !length_app, length_text_bytes. cbn. lia.
    + lia.
    + cbn [result final events fst snd]. rewrite Hr, He, <- app_assoc.
      split; reflexivity.
Qed.

(** X21. The names of the list-functions response are reported as they
    were sent. For a response to list-functions with a status that is not
    zero, whose payload holds names (not empty, without the character of
    code 0), each followed by the terminator, and then an empty name: with
    the JSON option the call returns normally and its last line is the
    JSON dictionary whose "functions" entry is the list of these names, in
    order. *)
Theorem listed_functions_are_reported
  command args quiet b status names junk :
  cmd_list_functions ∉ [cmd_ping; cmd_cal_report; cmd_query;
                         cmd_upgrade_start; cmd_upgrade_data; cmd_set_function] ->
  resp_command_of b = cmd_list_functions ->
  status <> 0 ->
  Forall is_name names ->
  json args = true ->
  let payload := b :: status :: concat (map cstr_bytes names) ++ 0 :: junk in
  let run := handle_response command args quiet (new_frame payload) in
  result run = Ret ∅ /\
  last (events run)
  = Some (PrintLine (JsonDumps (<["functions" := VStrs names]>
                                  (<["status" := VInt 1]>
                                     (<["cmd" := VInt cmd_list_functions]> ∅))))).
Proof.
  intros Hd Hb Hst Hnames Hjson payload run.
  set (f := new_frame payload).
  assert (Hc : exists evs,
             check_response command f = (Ret cmd_list_functions, f, evs)).
  { unfold resp_command_of in Hb.
    destruct (truthy (Z.land b cmd_response)) eqn:Hflag.
    - assert (Hnz : Z.land b cmd_response <> 0).
      { unfold truthy in Hflag. intros E. rewrite E in Hflag. discriminate. }
      assert (Hcr := check_response_flagged command f b status eq_refl eq_refl Hnz).
      cbn zeta in Hcr. rewrite Hb in Hcr.
      assert (Hok : device_failed cmd_list_functions status = false).
      { unfold device_failed, truthy.
        destruct (Z.eqb_spec status 0); [contradiction |].
        cbn. apply andb_false_r. }
      rewrite Hok in Hcr. eauto.
    - exists []. subst b. apply check_response_unflagged; [reflexivity |].
      unfold truthy in Hflag. apply negb_false_iff in Hflag.
      now apply Z.eqb_eq. }
  destruct Hc as [evs Hc].
  subst run. rewrite (handle_response_dispatch _ _ _ _ _ _ Hc).
  cbn [result final events fst snd].
  set (_json := <["status" := VInt 1]> (<["cmd" := VInt cmd_list_functions]> ∅)
                : gmap string pyval).
  assert (Hdec : result (decode_response cmd_list_functions args quiet _json f)
                 = Ret (∅, <["functions" := VStrs names]> _json) /\
                 events (decode_response cmd_list_functions args quiet _json f) = []).
  { repeat (apply not_elem_of_cons in Hd as [?%Z.eqb_neq Hd]).
    unfold decode_response.
    repeat match goal with
           | E : (cmd_list_functions =? _) = false |- _ => rewrite E; clear E
           end.
    rewrite Z.eqb_refl.
    rewrite (bind_ret_run _ _ f b (advance 1 f) [] (unpack8_run f b eq_refl)).
    rewrite (bind_ret_run _ _ (advance 1 f) status (advance 1 (advance 1 f)) []
               (unpack8_run (advance 1 f) status eq_refl)).
    destruct (Z.eqb_spec status 0); [contradiction |].
    rewrite (bind_ret_run get _ (advance 1 (advance 1 f))
               (advance 1 (advance 1 f)) (advance 1 (advance 1 f)) [] eq_refl).
    cbn [result final events fst snd app].
    destruct (unpack_functions_names names
                (S (length (get_frame (advance 1 (advance 1 f)))))
                [b; status] junk [] (advance 1 (advance 1 f)) Hnames)
      as [Hr He].
    - reflexivity.
    - reflexivity.
    - cbn [get_frame advance f new_frame]. subst payload.
      cbn [length]. rewrite length_app, length_concat. cbn [length].
      assert (Hsum : (length names <= list_sum (map length (map cstr_bytes names)))%nat).
      { clear. induction names as [| s names IH]; [cbn; lia |].
        unfold list_sum in *. cbn. unfold cstr_bytes at 1.
        rewrite length_app. cbn. lia. }
      lia.
    - rewrite Hjson.
      set (f2 := advance 1 (advance 1 f)) in *.
      set (fuel := S (length (get_frame f2))) in *.
      pose proof (bind_assoc unpack_cstr
                    (fun name => unpack_functions fuel name [])
                    (fun functions =>
                       ret (∅ : gmap string pyval,
                            <["functions" := VStrs functions]> _json))
                    f2) as E.
      cbv beta in E. rewrite <- E. clear E.
      set (m := bind unpack_cstr (fun name => unpack_functions fuel name [])) in *.
      assert (Hm : m f2 = (Ret names, final (m f2), [])).
      { rewrite (run_eta (m f2)), Hr, He. reflexivity. }
      rewrite (bind_ret_run m _ f2 names _ [] Hm).
      split; reflexivity. }
  destruct Hdec as [Hr He].
  unfold dispatch_response. rewrite Hjson. fold _json.
  set (m := decode_response cmd_list_functions args quiet _json) in *.
  assert (Hm : m f = (Ret (∅, <["functions" := VStrs names]> _json),
                      final (m f), [])).
  { rewrite (run_eta (m f)), Hr, He. reflexivity. }
  rewrite (bind_ret_run m _ f _ _ [] Hm).
  unfold print. rewrite bind_emit. cbn [result final events fst snd app].
  split; [reflexivity |].
  change (events (ret (∅ : gmap string pyval) (final (m f)))) with (@nil event).
  now rewrite last_snoc.
Qed.

End functions_list.

Lemma listed_functions_witness :
  let names := ["cv"; "cc"] in
  let payload := 141 :: 1 :: concat (map cstr_bytes names) ++ [0] in
  let run := @handle_response sample_protocol 13 json_args false
               (new_frame payload) in
  result run = Ret ∅ /\
  last (events run)
  = Some (PrintLine (JsonDumps (<["functions" := VStrs names]>
                                  (<["status" := VInt 1]>
                                     (<["cmd" := VInt 13]> ∅))))).
Proof.
  apply (@listed_functions_are_reported sample_protocol 13 json_args false
           141 1 ["cv"; "cc"] []).
  - decide_absent.
  - reflexivity.
  - discriminate.
  - apply Forall_cons; split; [split; [discriminate | reflexivity] |].
    apply Forall_cons; split; [split; [discriminate | reflexivity] |].
    apply Forall_nil_2.
  - reflexivity.
Defined.
